(** * pdf_editor.py: edit ledger, selection, save/open and the speech worker

    A shallow embedding of [src/pdf_editor.py].  The Tk application object
    [PDFEditorApp] becomes a record of its fields, every event handler a
    computation in a small state-and-exception monad (an exception leaves the
    fields as they were when it was raised, as in Python), and the speech
    worker of [TTSWorker] a step function over the state it shares with the
    user-interface thread.

    Page coordinates are Python floats in the source; they are rationals
    here, so that [x / zoom] and the comparisons are exact. *)

From Stdlib Require Import ZArith QArith Bool Lia Lqa.
From stdpp Require Import base option list strings gmap.

Local Open Scope Z_scope.

(** ** Results of calls that may raise *)

Inductive exn : Type :=
  | DocumentClosed      (* ValueError("document closed") *)
  | FileDataError       (* fitz.open on a missing or broken file *)
  | IndexError          (* doc[i] out of range *)
  | DrawError           (* Page.draw_rect / Page.insert_image failed *)
  | SaveError.          (* Document.save failed *)

Inductive result (A : Type) : Type :=
  | Ok (a : A)
  | Raise (e : exn).
Arguments Ok {A} a.
Arguments Raise {A} e.

(** ** fitz.Rect *)

Record Rect : Type := mkRect { x0 : Q; y0 : Q; x1 : Q; y1 : Q }.

(** [Rect.__eq__]: the four coordinates are pairwise equal. *)
Definition rect_eqb (a b : Rect) : bool :=
  Qeq_bool (x0 a) (x0 b) && Qeq_bool (y0 a) (y0 b) &&
  Qeq_bool (x1 a) (x1 b) && Qeq_bool (y1 a) (y1 b).

(** [Rect.__bool__]: false only for the rectangle whose coordinates are all
    zero. *)
Definition rect_bool (r : Rect) : bool :=
  negb (Qeq_bool (x0 r) 0 && Qeq_bool (y0 r) 0 &&
        Qeq_bool (x1 r) 0 && Qeq_bool (y1 r) 0).

(** [Rect.contains((x, y))]: MuPDF's point-in-rectangle test. *)
Definition rect_contains (r : Rect) (p : Q * Q) : bool :=
  Qle_bool (x0 r) (fst p) && negb (Qle_bool (x1 r) (fst p)) &&
  Qle_bool (y0 r) (snd p) && negb (Qle_bool (y1 r) (snd p)).

(** [int(q)]: truncation towards zero. *)
Definition int_of (q : Q) : Z := Z.quot (Qnum q) (Zpos (Qden q)).

(** ** ImageModification (the dataclass of lines 125-129) *)

Record ImageModification : Type := mkMod {
  page_num : Z;
  old_rect : Rect;
  new_image_path : string
}.

(** The test of line 421 ([new] is the record the source calls [mod]):
    [existing.page_num == mod.page_num and existing.old_rect == mod.old_rect]. *)
Definition same_key (existing new : ImageModification) : bool :=
  (page_num existing =? page_num new) &&
  rect_eqb (old_rect existing) (old_rect new).

(** The loop of lines 420-424: the index of the first record that matches,
    which is where the loop assigns and breaks; [None] when the loop runs to
    its end with [replaced] still false. *)
Fixpoint find_existing (mods : list ImageModification)
    (new : ImageModification) (i : nat) : option nat :=
  match mods with
  | [] => None
  | existing :: rest =>
      if same_key existing new then Some i
      else find_existing rest new (S i)
  end.

(** Lines 419-426: [self.modifications[i] = mod] at the match, else
    [self.modifications.append(mod)]. *)
Definition add_or_replace (mods : list ImageModification)
    (new : ImageModification) : list ImageModification :=
  match find_existing mods new 0 with
  | Some i => <[i:=new]> mods
  | None => mods ++ [new]
  end.

(** Line 433: the list comprehension of [clear_page_edits]. *)
Definition without_page (mods : list ImageModification) (page : Z)
    : list ImageModification :=
  filter (λ m, page_num m ≠ page) mods.

(** No two records of the ledger have the same page and rectangle. *)
Definition unique_keys (l : list ImageModification) : Prop :=
  ∀ (i j : nat) (a b : ImageModification),
    i ≠ j → l !! i = Some a → l !! j = Some b → same_key a b = false.

(** The ledger after the given calls, made in order on an empty ledger. *)
Definition ledger_after (calls : list ImageModification)
    : list ImageModification :=
  foldl add_or_replace [] calls.

(** ** The document engine (PyMuPDF and Pillow), as far as the editor uses it *)

(** One entry of [page.get_image_info()]; [bbox] is [info.get("bbox")]. *)
Record ImageInfo : Type := mkInfo { bbox : option (Q * Q * Q * Q) }.

Definition Rect_of (b : Q * Q * Q * Q) : Rect :=
  let '(a, b, c, d) := b in mkRect a b c d.

Class DocEngine : Type := {
  Page : Type;
  get_image_info : Page → list ImageInfo;
  (* p.draw_rect(rect, color=(1,1,1), fill=(1,1,1)) *)
  draw_rect : Page → Rect → result Page;
  (* p.insert_image(rect, filename=path) *)
  insert_image : Page → Rect → string → result Page;
  (* whether new_doc.save(path) succeeds *)
  save_ok : list Page → string → bool;
  (* whether Image.open(path).resize((w, h)) succeeds *)
  image_ok : string → Z → Z → bool
}.

Module Editor.
Section WithEngine.
Context `{DocEngine}.

(** An open [fitz.Document]: its pages and whether [close()] was called. *)
Record Document : Type := mkDoc { pages : list Page; is_closed : bool }.

Definition close (d : Document) : Document :=
  {| pages := pages d; is_closed := true |}.

(** [len(doc)] raises on a closed document. *)
Definition doc_len (d : Document) : result Z :=
  if is_closed d then Raise DocumentClosed
  else Ok (Z.of_nat (length (pages d))).

(** Truth value of [self.doc]: [None] is false, a document is judged by its
    [__len__]. *)
Definition doc_bool (d : option Document) : result bool :=
  match d with
  | None => Ok false
  | Some d =>
      match doc_len d with
      | Ok n => Ok (negb (n =? 0))
      | Raise e => Raise e
      end
  end.

(** [doc[i]] for an index inside the document. *)
Definition doc_getitem (d : Document) (i : Z) : result Page :=
  if is_closed d then Raise DocumentClosed
  else if (0 <=? i) && (i <? Z.of_nat (length (pages d))) then
    match pages d !! Z.to_nat i with
    | Some p => Ok p
    | None => Raise IndexError
    end
  else Raise IndexError.

(** ** What the user sees *)

Inductive Mode : Type := ModeSelect | ModeDraw.

Inductive Status : Type :=
  | StReady
  | StOpened (path : string)
  | StFailedOpen
  | StInvalidPage
  | StDisplayed (n : Z)
  | StOpenFirst
  | StNoImages
  | StSelected (r : Rect)
  | StNoImageAtClick
  | StReplaceCancelled
  | StScheduled (path : string)
  | StCleared (n : Z) (page : Z)
  | StSaving
  | StSaved (path : string)
  | StSaveFailed.

Inductive UIEvent : Type :=
  | SetStatus (s : Status)            (* self._set_status(...) *)
  | PageLabel (cur total : Z)         (* self.page_label.config(...) *)
  | ShowWarning (title : string)      (* messagebox.showwarning *)
  | ShowInfo (title : string)         (* messagebox.showinfo *)
  | ShowError (title : string) (e : exn).   (* messagebox.showerror *)

Inductive CanvasItem : Type :=
  | PageImage
  | ReplacementImage (path : string) (x y : Z)
  | WhiteBox (x0 y0 x1 y1 : Z)
  | Highlight (x0 y0 x1 y1 : Z).

(** ** The fields of [PDFEditorApp], with the files on disk

    [ui] is the trace of status updates and dialogs, oldest first; [files]
    maps a path to the document stored there. *)
Record App : Type := mkApp {
  doc : option Document;
  doc_path : option string;
  current_page_idx : Z;
  modifications : list ImageModification;
  selected_rect_pdf : option Rect;
  selected_rect_canvas : option (Z * Z * Z * Z);
  selected_highlight_id : option positive;
  mode_var : Mode;
  canvas : list (positive * CanvasItem);
  canvas_next : positive;
  ui : list UIEvent;
  files : gmap string (list Page)
}.

(** [self.zoom = 1.5], assigned once in [__init__]. *)
Definition zoom : Q := 3 # 2.

Definition set_doc (v : option Document) (a : App) : App :=
  mkApp v (doc_path a) (current_page_idx a) (modifications a)
    (selected_rect_pdf a) (selected_rect_canvas a) (selected_highlight_id a)
    (mode_var a) (canvas a) (canvas_next a) (ui a) (files a).
Definition set_doc_path (v : option string) (a : App) : App :=
  mkApp (doc a) v (current_page_idx a) (modifications a)
    (selected_rect_pdf a) (selected_rect_canvas a) (selected_highlight_id a)
    (mode_var a) (canvas a) (canvas_next a) (ui a) (files a).
Definition set_current_page_idx (v : Z) (a : App) : App :=
  mkApp (doc a) (doc_path a) v (modifications a)
    (selected_rect_pdf a) (selected_rect_canvas a) (selected_highlight_id a)
    (mode_var a) (canvas a) (canvas_next a) (ui a) (files a).
Definition set_modifications (v : list ImageModification) (a : App) : App :=
  mkApp (doc a) (doc_path a) (current_page_idx a) v
    (selected_rect_pdf a) (selected_rect_canvas a) (selected_highlight_id a)
    (mode_var a) (canvas a) (canvas_next a) (ui a) (files a).
Definition set_selection (r : option Rect) (c : option (Z * Z * Z * Z))
    (h : option positive) (a : App) : App :=
  mkApp (doc a) (doc_path a) (current_page_idx a) (modifications a)
    r c h (mode_var a) (canvas a) (canvas_next a) (ui a) (files a).
Definition set_canvas (v : list (positive * CanvasItem)) (n : positive)
    (a : App) : App :=
  mkApp (doc a) (doc_path a) (current_page_idx a) (modifications a)
    (selected_rect_pdf a) (selected_rect_canvas a) (selected_highlight_id a)
    (mode_var a) v n (ui a) (files a).
Definition set_ui (v : list UIEvent) (a : App) : App :=
  mkApp (doc a) (doc_path a) (current_page_idx a) (modifications a)
    (selected_rect_pdf a) (selected_rect_canvas a) (selected_highlight_id a)
    (mode_var a) (canvas a) (canvas_next a) v (files a).
Definition set_files (v : gmap string (list Page)) (a : App) : App :=
  mkApp (doc a) (doc_path a) (current_page_idx a) (modifications a)
    (selected_rect_pdf a) (selected_rect_canvas a) (selected_highlight_id a)
    (mode_var a) (canvas a) (canvas_next a) (ui a) v.

(** ** The monad of the handlers: state, and exceptions that keep it *)

Definition M (A : Type) : Type := App → result A * App.

Definition ret {A} (a : A) : M A := λ st, (Ok a, st).
Definition bind {A B} (m : M A) (k : A → M B) : M B :=
  λ st, match m st with
        | (Ok a, st') => k a st'
        | (Raise e, st') => (Raise e, st')
        end.
Definition raise {A} (e : exn) : M A := λ st, (Raise e, st).
Definition gets {A} (f : App → A) : M A := λ st, (Ok (f st), st).
Definition modify (f : App → App) : M unit := λ st, (Ok tt, f st).
Definition lift {A} (r : result A) : M A := λ st, (r, st).
(** [try: body except Exception as e: handler]. *)
Definition try_except (body : M unit) (handler : exn → M unit) : M unit :=
  λ st, match body st with
        | (Ok a, st') => (Ok a, st')
        | (Raise e, st') => handler e st'
        end.

#[global] Instance M_ret : MRet M := @ret.
#[global] Instance M_bind : MBind M := λ A B k m, bind m k.

(** A Tk callback: an exception that escapes the handler is reported by Tk
    and the main loop goes on with the fields as they are. *)
Definition run (h : M unit) (st : App) : App := snd (h st).

(** ** Helpers of the application *)

Definition emit (e : UIEvent) : M unit :=
  modify (λ a, set_ui (ui a ++ [e]) a).

Definition _set_status (s : Status) : M unit := emit (SetStatus s).

Definition canvas_create (it : CanvasItem) : M positive :=
  n ← gets canvas_next;
  modify (λ a, set_canvas (canvas a ++ [(n, it)]) (Pos.succ n) a);;
  ret n.

Definition canvas_delete (id : positive) : M unit :=
  modify (λ a, set_canvas (filter (λ e, fst e ≠ id) (canvas a))
                 (canvas_next a) a).

Definition canvas_delete_all : M unit :=
  modify (λ a, set_canvas [] (canvas_next a) a).

(** Lines 557-562. *)
Definition _clear_selection : M unit :=
  h ← gets selected_highlight_id;
  match h with
  | Some id => canvas_delete id
  | None => ret tt
  end;;
  modify (set_selection None None None).

(** The rectangle in canvas coordinates, lines 324-327 and 393-396. *)
Definition to_canvas (r : Rect) : Z * Z * Z * Z :=
  (int_of (x0 r * zoom), int_of (y0 r * zoom),
   int_of (x1 r * zoom), int_of (y1 r * zoom)).

(** Lines 320-336: the overlay of the replacements of the current page. *)
Fixpoint render_mods (mods : list ImageModification) (idx : Z) : M unit :=
  match mods with
  | [] => ret tt
  | m :: rest =>
      (if page_num m =? idx then
         let '(cx0, cy0, cx1, cy1) := to_canvas (old_rect m) in
         if image_ok (new_image_path m) (cx1 - cx0) (cy1 - cy0)
         then canvas_create (ReplacementImage (new_image_path m) cx0 cy0);;
              ret tt
         else canvas_create (WhiteBox cx0 cy0 cx1 cy1);; ret tt
       else ret tt);;
      render_mods rest idx
  end.

(** Lines 297-339. *)
Definition _render_page : M unit :=
  canvas_delete_all;;
  d ← gets doc;
  b ← lift (doc_bool d);
  match d, b with
  | Some d, true =>
      idx ← gets current_page_idx;
      n ← lift (doc_len d);
      if (0 <=? idx) && (idx <? n) then
        _ ← lift (doc_getitem d idx);
        canvas_create PageImage;;
        mods ← gets modifications;
        render_mods mods idx;;
        emit (PageLabel (idx + 1) n);;
        _set_status (StDisplayed (idx + 1))
      else _set_status StInvalidPage
  | _, _ => emit (PageLabel 0 0)
  end.

(** Lines 341-347. *)
Definition prev_page : M unit :=
  d ← gets doc;
  b ← lift (doc_bool d);
  if negb b then ret tt
  else
    idx ← gets current_page_idx;
    if 0 <? idx then
      modify (set_current_page_idx (idx - 1));;
      _clear_selection;;
      _render_page
    else ret tt.

(** Lines 349-355. *)
Definition next_page : M unit :=
  d ← gets doc;
  b ← lift (doc_bool d);
  match d, b with
  | Some d, true =>
      idx ← gets current_page_idx;
      n ← lift (doc_len d);
      if idx <? n - 1 then
        modify (set_current_page_idx (idx + 1));;
        _clear_selection;;
        _render_page
      else ret tt
  | _, _ => ret tt
  end.

(** ** Selection and replacement *)

(** Line 390: the candidate grown by the click tolerance. *)
Definition buffered (rect : Rect) (buffer_pdf : Q) : Rect :=
  mkRect (x0 rect - buffer_pdf) (y0 rect - buffer_pdf)
         (x1 rect + buffer_pdf) (y1 rect + buffer_pdf).

(** Lines 385-400: the scan over the reported image regions; the rectangle
    of the first hit, at which the handler returns. *)
Fixpoint hit_scan (images : list ImageInfo) (buffer_pdf : Q) (p : Q * Q)
    : option Rect :=
  match images with
  | [] => None
  | info :: rest =>
      match bbox info with
      | None => hit_scan rest buffer_pdf p
      | Some b =>
          let rect := Rect_of b in
          if rect_contains (buffered rect buffer_pdf) p then Some rect
          else hit_scan rest buffer_pdf p
      end
  end.

(** Lines 362-402; [cx], [cy] are the click in canvas coordinates
    ([canvasx], [canvasy] of the event). *)
Definition on_canvas_click_select (cx cy : Q) : M unit :=
  d ← gets doc;
  b ← lift (doc_bool d);
  match d, b with
  | Some d, true =>
      _clear_selection;;
      let pdf_x := (cx / zoom)%Q in
      let pdf_y := (cy / zoom)%Q in
      idx ← gets current_page_idx;
      page ← lift (doc_getitem d idx);
      let images := get_image_info page in
      match images with
      | [] => _set_status StNoImages
      | _ =>
          let buffer_pdf := (8 / zoom)%Q in
          match hit_scan images buffer_pdf (pdf_x, pdf_y) with
          | Some rect =>
              let '(cx0, cy0, cx1, cy1) := to_canvas rect in
              id ← canvas_create (Highlight cx0 cy0 cx1 cy1);
              modify (set_selection (Some rect) (Some (cx0, cy0, cx1, cy1))
                        (Some id));;
              _set_status (StSelected rect)
          | None => _set_status StNoImageAtClick
          end
      end
  | _, _ => _set_status StOpenFirst
  end.

(** Truth value of [self.selected_rect_pdf]. *)
Definition selection_bool (s : option Rect) : bool :=
  match s with
  | None => false
  | Some r => rect_bool r
  end.

(** Lines 404-429; [path] is what the file dialog returns, the empty string
    when it is cancelled. *)
Definition replace_image (path : string) : M unit :=
  mode ← gets mode_var;
  match mode with
  | ModeDraw => emit (ShowWarning "Mode")
  | ModeSelect =>
      sel ← gets selected_rect_pdf;
      match sel with
      | Some rect =>
          if rect_bool rect then
            if String.eqb path EmptyString then _set_status StReplaceCancelled
            else
              idx ← gets current_page_idx;
              let new := mkMod idx rect path in
              modify (λ a, set_modifications
                             (add_or_replace (modifications a) new) a);;
              _set_status (StScheduled path);;
              _render_page
          else emit (ShowWarning "No selection")
      | None => emit (ShowWarning "No selection")
      end
  end.

(** Lines 431-436. *)
Definition clear_page_edits : M unit :=
  mods ← gets modifications;
  idx ← gets current_page_idx;
  let before := Z.of_nat (length mods) in
  modify (set_modifications (without_page mods idx));;
  mods' ← gets modifications;
  let after := Z.of_nat (length mods') in
  _set_status (StCleared (before - after) (idx + 1));;
  _render_page.

(** ** Opening and saving *)

(** [fitz.open(path)]: the document stored at [path]; without a path PyMuPDF
    makes a new empty document. *)
Definition fitz_open (path : option string) : M Document :=
  match path with
  | None => ret (mkDoc [] false)
  | Some p =>
      fs ← gets files;
      match fs !! p with
      | Some ps => ret (mkDoc ps false)
      | None => raise FileDataError
      end
  end.

(** [new_doc.save(out_path)]. *)
Definition doc_save (d : Document) (out_path : string) : M unit :=
  if is_closed d then raise DocumentClosed
  else if save_ok (pages d) out_path then
    modify (λ a, set_files (<[out_path := pages d]> (files a)) a)
  else raise SaveError.

(** [self.doc.close()] on the live document. *)
Definition close_live : M unit :=
  modify (λ a, set_doc (close <$> doc a) a).

(** Lines 454-461: the records applied to the copy, in ledger order; a
    record whose page is outside the copy is skipped. *)
Fixpoint apply_mods (mods : list ImageModification) (new_doc : Document)
    : result Document :=
  match mods with
  | [] => Ok new_doc
  | m :: rest =>
      match doc_len new_doc with
      | Raise e => Raise e
      | Ok n =>
          if (0 <=? page_num m) && (page_num m <? n) then
            match doc_getitem new_doc (page_num m) with
            | Raise e => Raise e
            | Ok p =>
                match draw_rect p (old_rect m) with
                | Raise e => Raise e
                | Ok p1 =>
                    match insert_image p1 (old_rect m) (new_image_path m) with
                    | Raise e => Raise e
                    | Ok p2 =>
                        apply_mods rest
                          (mkDoc (<[Z.to_nat (page_num m) := p2]> (pages new_doc))
                                 (is_closed new_doc))
                    end
                end
            end
          else apply_mods rest new_doc
      end
  end.

(** Lines 453-464: the copy is opened from [self.doc_path], edited and
    written to [out_path]. *)
Definition persist_copy (out_path : string) : M unit :=
  path ← gets doc_path;
  new_doc ← fitz_open path;
  mods ← gets modifications;
  new_doc ← lift (apply_mods mods new_doc);
  doc_save new_doc out_path.

(** Lines 465-474: the session takes the saved file as its document. *)
Definition adopt_saved (out_path : string) : M unit :=
  emit (ShowInfo "Saved");;
  _set_status (StSaved out_path);;
  d ← gets doc;
  b ← lift (doc_bool d);
  (if (b : bool) then close_live else ret tt);;
  reopened ← fitz_open (Some out_path);
  modify (set_doc (Some reopened));;
  modify (set_doc_path (Some out_path));;
  modify (set_current_page_idx 0);;
  modify (set_modifications []);;
  _render_page.

(** Lines 438-477; [out_path] is what the save dialog returns. *)
Definition save_pdf (out_path : string) : M unit :=
  d ← gets doc;
  b ← lift (doc_bool d);
  if negb b then emit (ShowWarning "No PDF")
  else
    mods ← gets modifications;
    match mods with
    | [] => emit (ShowInfo "No changes")
    | _ :: _ =>
        if String.eqb out_path EmptyString then ret tt
        else
          _set_status StSaving;;
          try_except
            (persist_copy out_path;; adopt_saved out_path)
            (λ e, emit (ShowError "Save Error" e);;
                  _set_status StSaveFailed)
    end.

(** Lines 285-292: the body of the [try]. *)
Definition open_body (path : string) : M unit :=
  d ← gets doc;
  b ← lift (doc_bool d);
  (if (b : bool) then close_live else ret tt);;
  opened ← fitz_open (Some path);
  modify (set_doc (Some opened));;
  modify (set_doc_path (Some path));;
  modify (set_current_page_idx 0);;
  modify (set_modifications []);;
  _render_page;;
  _set_status (StOpened path).

(** Lines 280-295; [path] is what the open dialog returns. *)
Definition open_pdf (path : string) : M unit :=
  if String.eqb path EmptyString then ret tt
  else
    try_except
      (open_body path)
      (λ e, emit (ShowError "Open PDF" e);;
            _set_status StFailedOpen).

(** The fields after [__init__] (lines 140-169), for the files [fs]. *)
Definition initial (fs : gmap string (list Page)) : App :=
  mkApp None None 0 [] None None None ModeSelect [] 1%positive [] fs.

(** ** The main loop *)

Definition set_mode_var (v : Mode) (a : App) : App :=
  mkApp (doc a) (doc_path a) (current_page_idx a) (modifications a)
    (selected_rect_pdf a) (selected_rect_canvas a) (selected_highlight_id a)
    v (canvas a) (canvas_next a) (ui a) (files a).

(** What the user can do to the editing part of the window (lines 208-227
    and the canvas binding of line 272), with the answers of the dialogs. *)
Inductive Event : Type :=
  | OpenPdf (path : string)
  | PrevPage
  | NextPage
  | ClickSelect (cx cy : Q)
  | ReplaceImage (path : string)
  | ClearPageEdits
  | SavePdf (out_path : string)
  | SetMode (mode : Mode).

Definition handle (ev : Event) : M unit :=
  match ev with
  | OpenPdf path => open_pdf path
  | PrevPage => prev_page
  | NextPage => next_page
  | ClickSelect cx cy => on_canvas_click_select cx cy
  | ReplaceImage path => replace_image path
  | ClearPageEdits => clear_page_edits
  | SavePdf out_path => save_pdf out_path
  | SetMode mode => modify (set_mode_var mode)
  end.

(** The fields after the given events, from a fresh application. *)
Definition session (fs : gmap string (list Page)) (evs : list Event) : App :=
  foldl (λ st ev, run (handle ev) st) (initial fs) evs.

(** ** Vocabulary of the properties *)

(** [paints st st']: [st'] differs from [st] at most in the canvas and in
    the events added to the trace. *)
Definition paints (st st' : App) : Prop :=
  ∃ c n u, st' = set_ui (ui st ++ u) (set_canvas c n st).

Definition painter {A} (m : M A) : Prop :=
  ∀ st r st', m st = (r, st') → paints st st'.

(** [keeps_unique m]: running [m] on a ledger without duplicates leaves a
    ledger without duplicates, also when [m] raises. *)
Definition keeps_unique {A} (m : M A) : Prop :=
  ∀ st r st', m st = (r, st') →
    unique_keys (modifications st) → unique_keys (modifications st').

(** The click [p] falls inside the bounds of the region, grown by
    [buffer_pdf] on every side. *)
Definition in_buffered_bounds (buffer_pdf : Q) (p : Q * Q) (info : ImageInfo)
    : bool :=
  match bbox info with
  | Some b => rect_contains (buffered (Rect_of b) buffer_pdf) p
  | None => false
  end.

(** The copy [save_pdf] works on: the document stored at [self.doc_path],
    with the ledger applied to it. *)
Definition edited_copy (st : App) : result Document :=
  match doc_path st with
  | None => apply_mods (modifications st) (mkDoc [] false)
  | Some p =>
      match files st !! p with
      | Some ps => apply_mods (modifications st) (mkDoc ps false)
      | None => Raise FileDataError
      end
  end.

End WithEngine.
End Editor.

(** * The speech worker and the threads around it

    Two kinds of thread run: the user-interface thread, which executes
    [stop_speaking] statement by statement, and the [TTSWorker] threads.  The
    queue and the stop event are shared; each step below is one atomic
    operation on them, and a schedule says which thread moves next. *)

Module TTS.

(** Where a [TTSWorker] thread stands in [run] (lines 79-112). *)
Inductive WorkerPc : Type :=
  | WCreated                          (* constructed, [start()] failed *)
  | WStarted                          (* started, before line 81 *)
  | WLoop (eng : nat)                 (* at the test of line 88 *)
  | WGet (eng : nat)                  (* inside [queue.get(timeout=0.2)], line 90 *)
  | WSay (eng : nat) (text : string)  (* holds [text], lines 98-101 *)
  | WExited (eng : option nat).       (* [run] has returned *)

(** Where the user-interface thread stands in [stop_speaking]
    (lines 532-553). *)
Inductive UiPc : Type :=
  | UIdle        (* no call in progress *)
  | UDrainTest   (* line 536: [while not self.tts_queue.empty()] *)
  | UDrainGet    (* line 538: [self.tts_queue.get_nowait()] *)
  | USetStop     (* line 542 *)
  | UJoin        (* lines 545-546 *)
  | UClear       (* line 550 *)
  | UFresh.      (* lines 551-553 *)

(** The state the threads share.  [workers] lists every [TTSWorker] made so
    far, oldest first; [tts_worker] is the index of [self.tts_worker];
    [engines] counts the engines [pyttsx3.init()] has returned; [spoken] is
    what was handed to [engine.say], oldest first; [stopped] the engines on
    which the cleanup of lines 107-111 called [stop()]. *)
Record Sys : Type := mkSys {
  tts_queue : list (option string);
  tts_stop_event : bool;
  workers : list WorkerPc;
  tts_worker : option nat;
  tts_ready : bool;
  engines : nat;
  spoken : list string;
  stopped : list nat;
  speech_stopped : nat;     (* how often line 553 set the status *)
  ui_pc : UiPc
}.

Definition set_queue (q : list (option string)) (s : Sys) : Sys :=
  mkSys q (tts_stop_event s) (workers s) (tts_worker s) (tts_ready s)
    (engines s) (spoken s) (stopped s) (speech_stopped s) (ui_pc s).
Definition set_stop_event (b : bool) (s : Sys) : Sys :=
  mkSys (tts_queue s) b (workers s) (tts_worker s) (tts_ready s)
    (engines s) (spoken s) (stopped s) (speech_stopped s) (ui_pc s).
Definition set_worker (w : nat) (pc : WorkerPc) (s : Sys) : Sys :=
  mkSys (tts_queue s) (tts_stop_event s) (<[w:=pc]> (workers s))
    (tts_worker s) (tts_ready s) (engines s) (spoken s) (stopped s)
    (speech_stopped s) (ui_pc s).
Definition set_engines (n : nat) (s : Sys) : Sys :=
  mkSys (tts_queue s) (tts_stop_event s) (workers s) (tts_worker s)
    (tts_ready s) n (spoken s) (stopped s) (speech_stopped s) (ui_pc s).
Definition set_spoken (l : list string) (s : Sys) : Sys :=
  mkSys (tts_queue s) (tts_stop_event s) (workers s) (tts_worker s)
    (tts_ready s) (engines s) l (stopped s) (speech_stopped s) (ui_pc s).
Definition set_stopped (l : list nat) (s : Sys) : Sys :=
  mkSys (tts_queue s) (tts_stop_event s) (workers s) (tts_worker s)
    (tts_ready s) (engines s) (spoken s) l (speech_stopped s) (ui_pc s).
Definition set_ui_pc (pc : UiPc) (s : Sys) : Sys :=
  mkSys (tts_queue s) (tts_stop_event s) (workers s) (tts_worker s)
    (tts_ready s) (engines s) (spoken s) (stopped s) (speech_stopped s) pc.

Section WithSpeechEngine.

(** Whether [pyttsx3.init()] and [setProperty] succeed in the worker with
    the given index, and whether [Thread.start()] succeeds for it. *)
Variable init_ok : nat → bool.
Variable start_ok : nat → bool.

(** The cleanup of lines 106-112. *)
Definition cleanup (w : nat) (eng : option nat) (s : Sys) : Sys :=
  set_worker w (WExited eng)
    (match eng with
     | Some e => set_stopped (stopped s ++ [e]) s
     | None => s
     end).

(** One step of the worker thread [w] in [TTSWorker.run]. *)
Definition worker_step (w : nat) (s : Sys) : Sys :=
  match workers s !! w with
  | Some WStarted =>
      (* lines 80-85 *)
      if init_ok w
      then set_worker w (WLoop (engines s)) (set_engines (S (engines s)) s)
      else set_worker w (WExited None) s
  | Some (WLoop e) =>
      (* line 88 *)
      if tts_stop_event s then cleanup w (Some e) s
      else set_worker w (WGet e) s
  | Some (WGet e) =>
      (* lines 89-96 *)
      match tts_queue s with
      | [] => set_worker w (WLoop e) s              (* queue.Empty: continue *)
      | None :: q => cleanup w (Some e) (set_queue q s)   (* sentinel: break *)
      | Some text :: q => set_worker w (WSay e text) (set_queue q s)
      end
  | Some (WSay e text) =>
      (* lines 98-104 *)
      set_worker w (WLoop e) (set_spoken (spoken s ++ [text]) s)
  | Some WCreated | Some (WExited _) | None => s
  end.

(** One statement of [stop_speaking] on the user-interface thread. *)
Definition ui_step (s : Sys) : Sys :=
  match ui_pc s with
  | UIdle => s
  | UDrainTest =>
      match tts_queue s with
      | [] => set_ui_pc USetStop s
      | _ :: _ => set_ui_pc UDrainGet s
      end
  | UDrainGet =>
      match tts_queue s with
      | [] => set_ui_pc USetStop s                  (* queue.Empty: break *)
      | _ :: q => set_ui_pc UDrainTest (set_queue q s)
      end
  | USetStop => set_ui_pc UJoin (set_stop_event true s)
  | UJoin =>
      (* [join(timeout=0.5)] returns when the worker has exited or when the
         time is up *)
      set_ui_pc UClear s
  | UClear => set_ui_pc UFresh (set_stop_event false s)
  | UFresh =>
      let w := length (workers s) in
      if start_ok w then
        mkSys (tts_queue s) (tts_stop_event s) (workers s ++ [WStarted])
          (Some w) (tts_ready s) (engines s) (spoken s) (stopped s)
          (S (speech_stopped s)) UIdle
      else
        mkSys (tts_queue s) (tts_stop_event s) (workers s ++ [WCreated])
          (Some w) (tts_ready s) (engines s) (spoken s) (stopped s)
          (speech_stopped s) UIdle
  end.

(** The user-interface thread enters [stop_speaking]; line 533 returns at
    once when speech is not ready. *)
Definition call_stop_speaking (s : Sys) : Sys :=
  match ui_pc s with
  | UIdle => if tts_ready s then set_ui_pc UDrainTest s else s
  | _ => s
  end.

(** Line 527, [self.tts_queue.put(txt)], from a handler of the
    user-interface thread. *)
Definition enqueue (txt : string) (s : Sys) : Sys :=
  match ui_pc s with
  | UIdle => set_queue (tts_queue s ++ [Some txt]) s
  | _ => s
  end.

(** [TTSWorker.stop] (lines 114-120). *)
Definition worker_stop (s : Sys) : Sys :=
  set_queue (tts_queue s ++ [None]) (set_stop_event true s).

Inductive Label : Type :=
  | CallStop                (* the user-interface thread calls [stop_speaking] *)
  | Put (txt : string)      (* the user-interface thread queues a text *)
  | Ui                      (* the next statement of [stop_speaking] *)
  | Worker (w : nat).       (* the next step of worker [w] *)

Definition step (l : Label) (s : Sys) : Sys :=
  match l with
  | CallStop => call_stop_speaking s
  | Put txt => enqueue txt s
  | Ui => ui_step s
  | Worker w => worker_step w s
  end.

Definition run_sched (sched : list Label) (s : Sys) : Sys :=
  foldl (λ s l, step l s) s sched.

(** Lines 161-165 and 176-182 of [PDFEditorApp.__init__]. *)
Definition app_init : Sys :=
  if start_ok 0%nat then
    mkSys [] false [WStarted] (Some 0%nat) true 0 [] [] 0 UIdle
  else
    mkSys [] false [WCreated] (Some 0%nat) false 0 [] [] 0 UIdle.

End WithSpeechEngine.



End TTS.

(** * A concrete engine and session *)

Module Demo.
Import Editor.

(** An engine whose pages are their lists of image regions.  Inserting an
    image adds its region; the image file [missing.png] cannot be read and
    nothing can be written to [/locked/out.pdf]. *)
Definition demo_engine : DocEngine := {|
  Page := list ImageInfo;
  get_image_info := λ p, p;
  draw_rect := λ p _, Ok p;
  insert_image := λ p r path,
    if String.eqb path "missing.png" then Raise DrawError
    else Ok (p ++ [mkInfo (Some (x0 r, y0 r, x1 r, y1 r))]);
  save_ok := λ _ path, negb (String.eqb path "/locked/out.pdf");
  image_ok := λ path _ _, negb (String.eqb path "missing.png")
|}.
#[local] Existing Instance demo_engine.

Definition square : Rect := mkRect 10 10 50 50.

Definition page0 : list ImageInfo :=
  [mkInfo (Some (10, 10, 50, 50)%Q); mkInfo None;
   mkInfo (Some (40, 40, 90, 90)%Q)].

Definition disk : gmap string (list (list ImageInfo)) :=
  {[ "a.pdf" := [page0; []] ]}.

(** [a.pdf] is opened, its first image is clicked, and [b.png] is chosen as
    the replacement. *)
Definition opened : App := run (open_pdf "a.pdf") (initial disk).
Definition selected : App := run (on_canvas_click_select 30 30) opened.
Definition scheduled : App := run (replace_image "b.png") selected.

End Demo.

(** * Concrete schedules of the speech worker *)

Module TTSDemo.
Import TTS.

Definition always (_ : nat) : bool := true.
Definition never (_ : nat) : bool := false.

(** The worker has its engine and waits in [queue.get]; two texts are
    queued and the worker has not yet taken either. *)
Definition hello_world : Sys :=
  run_sched always always
    [Worker 0; Worker 0; Put "hello"; Put "world"] (app_init always).


(** The worker is in the middle of an utterance. *)
Definition busy : Sys :=
  run_sched always always
    [Worker 0; Put "a long paragraph"; Worker 0; Worker 0] (app_init always).

(** [stop_speaking] from beginning to end on an empty queue, the worker
    making no step meanwhile: the join of line 546 times out. *)
Definition stop_while_busy : list Label :=
  [CallStop; Ui; Ui; Ui; Ui; Ui].

End TTSDemo.

(** * Vocabulary of the session properties *)

Module Session.
Import Editor.
Section WithEngine.
Context `{DocEngine}.

(** The current page index is not negative and, when the open document has
    pages, it is the index of one of them. *)
Definition page_in_range (st : App) : Prop :=
  0 ≤ current_page_idx st ∧
  ∀ d, doc st = Some d → pages d ≠ [] →
       current_page_idx st < Z.of_nat (length (pages d)).

(** Every record of the ledger is for a page that is not negative and,
    when the open document has pages, for one of them. *)
Definition ledger_in_range (st : App) : Prop :=
  ∀ m, m ∈ modifications st →
    0 ≤ page_num m ∧
    ∀ d, doc st = Some d → pages d ≠ [] →
         page_num m < Z.of_nat (length (pages d)).

(** The three selection fields go together: the canvas rectangle is the
    selected rectangle in canvas coordinates, and there is a highlight
    exactly when there is a selection. *)
Definition selection_coherent (st : App) : Prop :=
  selected_rect_canvas st = to_canvas <$> selected_rect_pdf st ∧
  (is_Some (selected_highlight_id st) ↔ is_Some (selected_rect_pdf st)).

(** The open document came from the file at [doc_path], and that file
    still holds its pages. *)
Definition file_coherent (st : App) : Prop :=
  match doc st with
  | Some d => ∃ p, doc_path st = Some p ∧ files st !! p = Some (pages d)
  | None => doc_path st = None
  end.

(** Lines 287-290 and 470-473: the session takes the document with pages
    [ps], stored at [path], as its own. *)
Definition adopted (ps : list Page) (path : string) (st : App) : App :=
  set_modifications []
    (set_current_page_idx 0
       (set_doc_path (Some path) (set_doc (Some (mkDoc ps false)) st))).

(** What [_render_page] draws for one ledger record (lines 324-336). *)
Definition overlay_item (m : ImageModification) : CanvasItem :=
  let '(cx0, cy0, cx1, cy1) := to_canvas (old_rect m) in
  if image_ok (new_image_path m) (cx1 - cx0) (cy1 - cy0)
  then ReplacementImage (new_image_path m) cx0 cy0
  else WhiteBox cx0 cy0 cx1 cy1.

(** Canvas items with the identifiers Tk gives them, counting from [n]. *)
Fixpoint number_from (n : positive) (items : list CanvasItem)
    : list (positive * CanvasItem) :=
  match items with
  | [] => []
  | it :: rest => (n, it) :: number_from (Pos.succ n) rest
  end.

(** The page of the record exists in a document of [n] pages (line 455). *)
Definition page_exists (n : Z) (m : ImageModification) : bool :=
  (0 <=? page_num m) && (page_num m <? n).

End WithEngine.
End Session.

(** * Vocabulary of the speech properties *)

Module Speech.
Import TTS.

(** The text a worker holds between [queue.get] and [engine.say]. *)
Definition held_text (pc : WorkerPc) : option string :=
  match pc with
  | WSay _ text => Some text
  | _ => None
  end.

(** The texts that were queued and have not been dropped: those spoken,
    those held by a worker, those still in the queue. *)
Definition accounted (s : Sys) : list string :=
  spoken s ++ omap held_text (workers s) ++ omap id (tts_queue s).

(** The texts the schedule hands to [self.tts_queue.put]. *)
Definition puts_of (sched : list Label) : list string :=
  omap (λ l, match l with Put txt => Some txt | _ => None end) sched.

(** The thread of the worker has been started and [run] has not returned. *)
Definition running (pc : WorkerPc) : bool :=
  match pc with
  | WStarted | WLoop _ | WGet _ | WSay _ _ => true
  | WCreated | WExited _ => false
  end.

(** The worker is at a point of [run] where it holds no text. *)
Definition at_loop_head (pc : WorkerPc) : bool :=
  match pc with
  | WStarted | WLoop _ => true
  | _ => false
  end.

(** A bound on the statements [stop_speaking] still has to execute, for a
    queue of [n] entries. *)
Definition ui_measure (pc : UiPc) (n : nat) : nat :=
  match pc with
  | UIdle => 0
  | UFresh => 1
  | UClear => 2
  | UJoin => 3
  | USetStop => 4
  | UDrainGet => 2 * n + 4
  | UDrainTest => 2 * n + 5
  end.

(** The schedule lets only [stop_speaking] and the workers move. *)
Definition no_call (l : Label) : bool :=
  match l with
  | Ui | Worker _ => true
  | CallStop | Put _ => false
  end.

(** How many statements of [stop_speaking] the schedule executes. *)
Fixpoint count_ui (sched : list Label) : nat :=
  match sched with
  | [] => 0
  | Ui :: rest => S (count_ui rest)
  | _ :: rest => count_ui rest
  end.

End Speech.

(** * Properties of the edit ledger *)

Lemma rect_eqb_sym (a b : Rect) : rect_eqb a b = rect_eqb b a.
Proof.
  unfold rect_eqb.
  assert (E : ∀ p q : Q, Qeq_bool p q = Qeq_bool q p).
  { intros p q. destruct (Qeq_bool p q) eqn:E1, (Qeq_bool q p) eqn:E2; trivial.
    - apply Qeq_bool_iff in E1. symmetry in E1. apply Qeq_bool_iff in E1.
      congruence.
    - apply Qeq_bool_iff in E2. symmetry in E2. apply Qeq_bool_iff in E2.
      congruence. }
  by rewrite (E (x0 a)), (E (y0 a)), (E (x1 a)), (E (y1 a)).
Qed.

Lemma rect_eqb_trans (a b c : Rect) :
  rect_eqb a b = true → rect_eqb b c = true → rect_eqb a c = true.
Proof.
  unfold rect_eqb. rewrite !andb_true_iff, !Qeq_bool_iff.
  intros [[[A1 A2] A3] A4] [[[B1 B2] B3] B4].
  repeat split; etransitivity; eassumption.
Qed.

Lemma same_key_sym (a b : ImageModification) : same_key a b = same_key b a.
Proof. unfold same_key. by rewrite rect_eqb_sym, Z.eqb_sym. Qed.

Lemma same_key_trans (a b c : ImageModification) :
  same_key a b = true → same_key b c = true → same_key a c = true.
Proof.
  unfold same_key. rewrite !andb_true_iff, !Z.eqb_eq.
  intros [P1 R1] [P2 R2]. split; [congruence | by eapply rect_eqb_trans].
Qed.

(** The scan stops at the first record that matches. *)
Lemma find_existing_Some (l : list ImageModification) new k i :
  find_existing l new k = Some i →
  ∃ (n : nat) old, i = (k + n)%nat ∧ l !! n = Some old ∧
    same_key old new = true ∧
    ∀ (j : nat) e, (j < n)%nat → l !! j = Some e → same_key e new = false.
Proof.
  revert k. induction l as [|e l IH]; intros k Hf; simpl in Hf; [done|].
  destruct (same_key e new) eqn:E.
  - injection Hf as <-. exists 0%nat, e. repeat split; [lia | done | lia].
  - destruct (IH _ Hf) as (n & old & -> & Hn & Hk & Hfirst).
    exists (S n), old. repeat split; [lia | done | done |].
    intros [|j] e' Hj Hl; simpl in Hl.
    + by injection Hl as <-.
    + eapply Hfirst; [|done]. lia.
Qed.

Lemma find_existing_None (l : list ImageModification) new k :
  find_existing l new k = None ↔ ∀ e, e ∈ l → same_key e new = false.
Proof.
  revert k. induction l as [|e l IH]; intros k; simpl.
  - split; [|done]. intros _ e He. by apply elem_of_nil in He.
  - destruct (same_key e new) eqn:E.
    + split; [done|]. intros Hall. specialize (Hall e). rewrite E in Hall.
      discriminate Hall. by left.
    + rewrite IH. split.
      * intros Hall e' He'. apply elem_of_cons in He' as [->|?]; auto.
      * intros Hall e' He'. apply Hall. by right.
Qed.

Lemma add_or_replace_hit (l : list ImageModification) new :
  (∃ e, e ∈ l ∧ same_key e new = true) →
  ∃ (i : nat) old, l !! i = Some old ∧ same_key old new = true ∧
    (∀ (j : nat) e, (j < i)%nat → l !! j = Some e → same_key e new = false) ∧
    add_or_replace l new = <[i:=new]> l.
Proof.
  intros (e & He & Hk). unfold add_or_replace.
  destruct (find_existing l new 0) as [i|] eqn:Hf.
  - destruct (find_existing_Some _ _ _ _ Hf) as (n & old & -> & ? & ? & ?).
    by exists n, old.
  - rewrite find_existing_None in Hf. rewrite (Hf e He) in Hk. discriminate.
Qed.

Lemma add_or_replace_miss (l : list ImageModification) new :
  (∀ e, e ∈ l → same_key e new = false) → add_or_replace l new = l ++ [new].
Proof.
  intros Hall. unfold add_or_replace.
  by rewrite (proj2 (find_existing_None l new 0) Hall).
Qed.

Lemma add_or_replace_cases (l : list ImageModification) new :
  (∃ (i : nat) old, l !! i = Some old ∧ same_key old new = true ∧
     (∀ (j : nat) e, (j < i)%nat → l !! j = Some e → same_key e new = false) ∧
     add_or_replace l new = <[i:=new]> l) ∨
  ((∀ e, e ∈ l → same_key e new = false) ∧ add_or_replace l new = l ++ [new]).
Proof.
  destruct (find_existing l new 0) as [i|] eqn:Hf.
  - left. apply add_or_replace_hit.
    destruct (find_existing_Some _ _ _ _ Hf) as (n & old & _ & Hn & Hk & _).
    exists old. split; [|done]. by eapply list_elem_of_lookup_2.
  - right. rewrite find_existing_None in Hf. split; [done|].
    by apply add_or_replace_miss.
Qed.

Lemma unique_keys_add_or_replace (l : list ImageModification) new :
  unique_keys l → unique_keys (add_or_replace l new).
Proof.
  intros Hu.
  destruct (add_or_replace_cases l new)
    as [(i & old & Hi & Hk & Hfirst & ->) | [Hall ->]].
  - assert (Hlt : (i < length l)%nat) by by eapply lookup_lt_Some.
    assert (Hnew : ∀ (j : nat) b, j ≠ i → l !! j = Some b →
                     same_key new b = false).
    { intros j b Hne Hj. destruct (same_key new b) eqn:E; [|done].
      rewrite <- (Hu i j old b); [|done..].
      symmetry. by eapply same_key_trans. }
    intros p q a b Hpq Hp Hq.
    destruct (decide (p = i)) as [->|Hpi], (decide (q = i)) as [->|Hqi];
      try done.
    + rewrite list_lookup_insert_eq in Hp by done. injection Hp as <-.
      rewrite list_lookup_insert_ne in Hq by done. by eapply Hnew.
    + rewrite list_lookup_insert_eq in Hq by done. injection Hq as <-.
      rewrite list_lookup_insert_ne in Hp by done.
      rewrite same_key_sym. by eapply Hnew.
    + rewrite list_lookup_insert_ne in Hp by done.
      rewrite list_lookup_insert_ne in Hq by done. by apply (Hu p q).
  - intros p q a b Hpq Hp Hq.
    apply lookup_app_Some in Hp as [Hp | [Hpl Hp]];
      apply lookup_app_Some in Hq as [Hq | [Hql Hq]].
    + by apply (Hu p q).
    + apply list_lookup_singleton_Some in Hq as [_ <-].
      apply Hall. by eapply list_elem_of_lookup_2.
    + apply list_lookup_singleton_Some in Hp as [_ <-].
      rewrite same_key_sym. apply Hall. by eapply list_elem_of_lookup_2.
    + apply list_lookup_singleton_Some in Hp as [Hp _].
      apply list_lookup_singleton_Some in Hq as [Hq _]. lia.
Qed.

Lemma unique_keys_ledger_after (l : list ImageModification) calls :
  unique_keys l → unique_keys (foldl add_or_replace l calls).
Proof.
  revert l. induction calls as [|c calls IH]; intros l Hu; simpl; [done|].
  apply IH. by apply unique_keys_add_or_replace.
Qed.

Lemma add_or_replace_new_in (l : list ImageModification) new :
  new ∈ add_or_replace l new.
Proof.
  destruct (add_or_replace_cases l new)
    as [(i & old & Hi & _ & _ & ->) | [_ ->]].
  - eapply list_elem_of_lookup_2. apply list_lookup_insert_eq.
    by eapply lookup_lt_Some.
  - apply elem_of_app. right. by left.
Qed.

(** A call for another pair keeps every record already stored. *)
Lemma add_or_replace_keeps (l : list ImageModification) m c :
  m ∈ l → same_key c m = false → m ∈ add_or_replace l c.
Proof.
  intros Hm Hk.
  destruct (add_or_replace_cases l c)
    as [(i & old & Hi & Hko & _ & ->) | [_ ->]].
  - apply list_elem_of_lookup in Hm as [j Hj].
    destruct (decide (j = i)) as [->|Hne].
    + rewrite Hi in Hj. injection Hj as ->.
      rewrite same_key_sym in Hk. congruence.
    + eapply list_elem_of_lookup_2. by rewrite list_lookup_insert_ne.
  - apply elem_of_app. by left.
Qed.

Lemma ledger_keeps (l : list ImageModification) m calls :
  m ∈ l → (∀ c, c ∈ calls → same_key c m = false) →
  m ∈ foldl add_or_replace l calls.
Proof.
  revert l. induction calls as [|c calls IH]; intros l Hm Hall; simpl; [done|].
  apply IH.
  - apply add_or_replace_keeps; [done|]. apply Hall. by left.
  - intros c' Hc'. apply Hall. by right.
Qed.

Lemma unique_keys_cons (x : ImageModification) l :
  unique_keys (x :: l) ↔
  (∀ y, y ∈ l → same_key x y = false) ∧ unique_keys l.
Proof.
  split.
  - intros Hu. split.
    + intros y Hy. apply list_elem_of_lookup in Hy as [j Hj].
      by apply (Hu 0%nat (S j)).
    + intros i j a b Hne Hi Hj. apply (Hu (S i) (S j)); [lia | done..].
  - intros [Hx Hu] i j a b Hne Hi Hj.
    destruct i as [|i], j as [|j]; simpl in *; try done.
    + injection Hi as <-. apply Hx. by eapply list_elem_of_lookup_2.
    + injection Hj as <-. rewrite same_key_sym. apply Hx.
      by eapply list_elem_of_lookup_2.
    + apply (Hu i j); [lia | done..].
Qed.

(** Removing records keeps the ledger free of duplicates. *)
Lemma unique_keys_sublist (l' l : list ImageModification) :
  sublist l' l → unique_keys l → unique_keys l'.
Proof.
  induction 1 as [|x l1 l2 Hs IH|x l1 l2 Hs IH]; intros Hu; [done|..].
  - apply unique_keys_cons in Hu as [Hx Hu]. apply unique_keys_cons.
    split; [|by apply IH]. intros y Hy. apply Hx.
    by eapply elem_of_sublist.
  - apply unique_keys_cons in Hu as [_ Hu]. by apply IH.
Qed.

(** * Properties of the handlers *)

Module EditorFacts.
Import Editor.
Section WithEngine.
Context `{DocEngine}.

Lemma paints_refl st : paints st st.
Proof.
  exists (canvas st), (canvas_next st), []. destruct st; simpl.
  unfold set_ui, set_canvas; simpl. by rewrite app_nil_r.
Qed.

Lemma paints_trans a b c : paints a b → paints b c → paints a c.
Proof.
  intros (c1 & n1 & u1 & ->) (c2 & n2 & u2 & ->).
  exists c2, n2, (u1 ++ u2). unfold set_ui, set_canvas; simpl.
  by rewrite app_assoc.
Qed.

Lemma painter_ret {A} (a : A) : painter (mret a).
Proof. intros st r st' [= <- <-]. apply paints_refl. Qed.

Lemma painter_lift {A} (r : result A) : painter (lift r).
Proof. intros st r' st' [= <- <-]. apply paints_refl. Qed.

Lemma painter_gets {A} (f : App → A) : painter (gets f).
Proof. intros st r st' [= <- <-]. apply paints_refl. Qed.

Lemma painter_bind {A B} (m : M A) (k : A → M B) :
  painter m → (∀ a, painter (k a)) → painter (m ≫= k).
Proof.
  intros Hm Hk st r st'. unfold mbind, M_bind, bind.
  destruct (m st) as [[a|e] st1] eqn:E.
  - intros Hk'. eapply paints_trans; [by eapply Hm | by eapply Hk].
  - intros [= <- <-]. by eapply Hm.
Qed.

Lemma painter_emit e : painter (emit e).
Proof.
  intros st r st' [= <- <-]. exists (canvas st), (canvas_next st), [e].
  by destruct st.
Qed.

Lemma painter_canvas (f : App → list (positive * CanvasItem))
    (g : App → positive) :
  painter (modify (λ a, set_canvas (f a) (g a) a)).
Proof.
  intros st r st' [= <- <-]. exists (f st), (g st), [].
  destruct st; unfold set_ui, set_canvas; simpl. by rewrite app_nil_r.
Qed.

Lemma painter_canvas_create it : painter (canvas_create it).
Proof.
  unfold canvas_create. apply painter_bind; [apply painter_gets|].
  intros n. apply painter_bind; [|intros; apply painter_ret].
  apply (painter_canvas (λ a, canvas a ++ [(n, it)]) (λ _, Pos.succ n)).
Qed.

Lemma painter_render_mods mods idx : painter (render_mods mods idx).
Proof.
  induction mods as [|m mods IH]; simpl; [apply painter_ret|].
  apply painter_bind; [|by intros].
  destruct (page_num m =? idx); [|apply painter_ret].
  destruct (to_canvas (old_rect m)) as [[[cx0 cy0] cx1] cy1].
  destruct (image_ok _ _ _);
    (apply painter_bind; [apply painter_canvas_create |
                          intros; apply painter_ret]).
Qed.

Lemma painter_render : painter _render_page.
Proof.
  unfold _render_page, canvas_delete_all.
  apply painter_bind;
    [apply (painter_canvas (λ _, []) (λ a, canvas_next a))|].
  intros _. apply painter_bind; [apply painter_gets|]. intros d.
  apply painter_bind; [apply painter_lift|]. intros b.
  destruct d as [d|], b; try apply painter_emit.
  apply painter_bind; [apply painter_gets|]. intros idx.
  apply painter_bind; [apply painter_lift|]. intros n.
  destruct (_ && _); [|apply painter_emit].
  apply painter_bind; [apply painter_lift|]. intros _.
  apply painter_bind; [apply painter_canvas_create|]. intros _.
  apply painter_bind; [apply painter_gets|]. intros mods.
  apply painter_bind; [apply painter_render_mods|]. intros _.
  apply painter_bind; [apply painter_emit|]. intros _.
  apply painter_emit.
Qed.

(** What painting leaves alone. *)
Lemma paints_fields st st' :
  paints st st' →
  doc st' = doc st ∧ doc_path st' = doc_path st ∧
  current_page_idx st' = current_page_idx st ∧
  modifications st' = modifications st ∧
  selected_rect_pdf st' = selected_rect_pdf st ∧
  selected_rect_canvas st' = selected_rect_canvas st ∧
  selected_highlight_id st' = selected_highlight_id st ∧
  mode_var st' = mode_var st ∧ files st' = files st ∧
  ∃ u, ui st' = ui st ++ u.
Proof. intros (c & n & u & ->). simpl. repeat split; eauto. Qed.

Lemma render_fields st :
  let st' := snd (_render_page st) in
  doc st' = doc st ∧ doc_path st' = doc_path st ∧
  current_page_idx st' = current_page_idx st ∧
  modifications st' = modifications st ∧
  selected_rect_pdf st' = selected_rect_pdf st ∧
  selected_rect_canvas st' = selected_rect_canvas st ∧
  selected_highlight_id st' = selected_highlight_id st ∧
  mode_var st' = mode_var st ∧ files st' = files st ∧
  ∃ u, ui st' = ui st ++ u.
Proof.
  simpl. apply paints_fields.
  destruct (_render_page st) as [r st'] eqn:E. by eapply painter_render.
Qed.

(** The records of a ledger split into those of a page and the others. *)
Lemma length_without_page (mods : list ImageModification) (p : Z) :
  Z.of_nat (length mods) - Z.of_nat (length (without_page mods p)) =
  Z.of_nat (length (filter (λ m, page_num m = p) mods)).
Proof.
  unfold without_page. induction mods as [|m mods IH]; [done|].
  rewrite !filter_cons. destruct (decide (page_num m = p)) as [E|E].
  - rewrite decide_False by (intros ?; contradiction).
    simpl length. lia.
  - rewrite decide_True by done. simpl length. lia.
Qed.

(** What [clear_page_edits] does to the ledger and what it reports. *)
Lemma clear_page_edits_fields (st : App) :
  let st' := run clear_page_edits st in
  let p := current_page_idx st in
  modifications st' = without_page (modifications st) p ∧
  ∃ u, ui st' = ui st ++
         SetStatus (StCleared
           (Z.of_nat (length (modifications st)) -
            Z.of_nat (length (without_page (modifications st) p)))
           (p + 1)) :: u.
Proof.
  intros st' p.
  set (st1 := set_ui (ui st ++ [SetStatus (StCleared
                (Z.of_nat (length (modifications st)) -
                 Z.of_nat (length (without_page (modifications st) p)))
                (p + 1))])
              (set_modifications (without_page (modifications st) p) st)).
  assert (E : st' = snd (_render_page st1)).
  { subst st' st1 p. unfold run, clear_page_edits, _set_status, emit.
    unfold mbind, M_bind, bind, gets, modify. simpl.
    by destruct (_render_page _). }
  destruct (render_fields st1) as (_ & _ & _ & Hm & _ & _ & _ & _ & _ & u & Hu).
  rewrite <- E in Hm, Hu. simpl in Hm, Hu. split; [done|].
  exists u. by rewrite Hu, <- app_assoc.
Qed.

(** ** C7 *)

(** C7. For every ledger, [clear_page_edits] leaves in the ledger exactly
    the records whose page is not the current page [p], in their original
    order, and its status message reports the number of records removed,
    which is the number of records of the ledger whose page is [p]. *)
Theorem clear_page_edits_removes_page (st : App) :
  let st' := run clear_page_edits st in
  let p := current_page_idx st in
  modifications st' = filter (λ m, page_num m ≠ p) (modifications st) ∧
  (∀ m, m ∈ modifications st' ↔ m ∈ modifications st ∧ page_num m ≠ p) ∧
  sublist (modifications st') (modifications st) ∧
  ∃ u, ui st' = ui st ++
         SetStatus (StCleared
           (Z.of_nat (length (filter (λ m, page_num m = p) (modifications st))))
           (p + 1)) :: u.
Proof.
  intros st' p. destruct (clear_page_edits_fields st) as [Hf [u Hu]].
  fold st' p in Hf, Hu. unfold without_page in Hf at 1.
  split; [done|]. split; [|split].
  - intros m. rewrite Hf, list_elem_of_filter. tauto.
  - rewrite Hf. apply sublist_filter.
  - exists u. by rewrite Hu, length_without_page.
Qed.

(** ** C10 *)

(** C10. When [replace_image] is called while the mode is not select, or
    while nothing is selected, or the file dialog is cancelled (it returns
    the empty path), the ledger is unchanged. *)
Theorem replace_image_guards_keep_ledger (st : App) (path : string) :
  mode_var st ≠ ModeSelect ∨ selected_rect_pdf st = None ∨ path = EmptyString →
  modifications (run (replace_image path) st) = modifications st.
Proof.
  intros Hg. unfold run, replace_image, _set_status, emit.
  unfold mbind, M_bind, bind, gets, modify. simpl.
  destruct (mode_var st) eqn:Em; [|done].
  destruct (selected_rect_pdf st) as [rect|] eqn:Es; [|done].
  destruct (rect_bool rect); [|done].
  destruct Hg as [Hg | [Hg | ->]]; [done | done |]. done.
Qed.

(** ** The ledger in every session *)

Lemma keeps_ret {A} (a : A) : keeps_unique (mret a).
Proof. by intros st r st' [= <- <-]. Qed.

Lemma keeps_lift {A} (r : result A) : keeps_unique (lift r).
Proof. by intros st r' st' [= <- <-]. Qed.

Lemma keeps_gets {A} (f : App → A) : keeps_unique (gets f).
Proof. by intros st r st' [= <- <-]. Qed.

Lemma keeps_raise {A} (e : exn) : keeps_unique (raise (A:=A) e).
Proof. by intros st r st' [= <- <-]. Qed.

Lemma keeps_bind {A B} (m : M A) (k : A → M B) :
  keeps_unique m → (∀ a, keeps_unique (k a)) → keeps_unique (m ≫= k).
Proof.
  intros Hm Hk st r st'. unfold mbind, M_bind, bind.
  destruct (m st) as [[a|e] st1] eqn:E.
  - intros Hk' Hu. eapply Hk; [done|]. by eapply Hm.
  - intros [= <- <-] Hu. by eapply Hm.
Qed.

Lemma keeps_modify (f : App → App) :
  (∀ a, unique_keys (modifications a) → unique_keys (modifications (f a))) →
  keeps_unique (modify f).
Proof. intros Hf st r st' [= <- <-]. apply Hf. Qed.

Lemma keeps_painter {A} (m : M A) : painter m → keeps_unique m.
Proof.
  intros Hp st r st' Hm Hu.
  destruct (paints_fields st st' (Hp st r st' Hm)) as (_ & _ & _ & -> & _).
  done.
Qed.

Lemma keeps_try (body : M unit) (handler : exn → M unit) :
  keeps_unique body → (∀ e, keeps_unique (handler e)) →
  keeps_unique (try_except body handler).
Proof.
  intros Hb Hh st r st'. unfold try_except.
  destruct (body st) as [[a|e] st1] eqn:E.
  - intros [= <- <-] Hu. by eapply Hb.
  - intros Hh' Hu. eapply Hh; [done|]. by eapply Hb.
Qed.

Lemma keeps_clear_selection : keeps_unique _clear_selection.
Proof.
  unfold _clear_selection. apply keeps_bind; [apply keeps_gets|].
  intros h. apply keeps_bind; [|intros; by apply keeps_modify].
  destruct h; [|apply keeps_ret]. by apply keeps_modify.
Qed.

Lemma keeps_render : keeps_unique _render_page.
Proof. apply keeps_painter, painter_render. Qed.

Lemma keeps_status s : keeps_unique (_set_status s).
Proof. apply keeps_painter, painter_emit. Qed.

Lemma keeps_emit e : keeps_unique (emit e).
Proof. apply keeps_painter, painter_emit. Qed.

Lemma keeps_fitz_open path : keeps_unique (fitz_open path).
Proof.
  unfold fitz_open. destruct path as [p|]; [|apply keeps_ret].
  apply keeps_bind; [apply keeps_gets|]. intros fs.
  destruct (fs !! p); [apply keeps_ret | apply keeps_raise].
Qed.

Lemma keeps_close_live : keeps_unique close_live.
Proof. by apply keeps_modify. Qed.

Lemma unique_keys_nil : unique_keys [].
Proof. intros i j a b _ Hi. by rewrite lookup_nil in Hi. Qed.

(** Taking a document, be it the one just opened or the one just saved. *)
Lemma keeps_adopt (d : Document) (path : string) (k : M unit) :
  keeps_unique k →
  keeps_unique (modify (set_doc (Some d));;
                modify (set_doc_path (Some path));;
                modify (set_current_page_idx 0);;
                modify (set_modifications []);; k).
Proof.
  intros Hk.
  apply keeps_bind; [by apply keeps_modify|]. intros _.
  apply keeps_bind; [by apply keeps_modify|]. intros _.
  apply keeps_bind; [by apply keeps_modify|]. intros _.
  apply keeps_bind; [|by intros].
  apply keeps_modify. intros a _. apply unique_keys_nil.
Qed.

Lemma keeps_open_pdf path : keeps_unique (open_pdf path).
Proof.
  unfold open_pdf. destruct (String.eqb _ _); [apply keeps_ret|].
  apply keeps_try.
  - unfold open_body. apply keeps_bind; [apply keeps_gets|]. intros d.
    apply keeps_bind; [apply keeps_lift|]. intros b.
    apply keeps_bind;
      [destruct b; [apply keeps_close_live | apply keeps_ret]|].
    intros _. apply keeps_bind; [apply keeps_fitz_open|]. intros opened.
    apply keeps_adopt.
    apply keeps_bind; [apply keeps_render | intros; apply keeps_status].
  - intros e. apply keeps_bind; [apply keeps_emit|]. intros.
    apply keeps_status.
Qed.

Lemma keeps_save_pdf out_path : keeps_unique (save_pdf out_path).
Proof.
  unfold save_pdf. apply keeps_bind; [apply keeps_gets|]. intros d.
  apply keeps_bind; [apply keeps_lift|]. intros b.
  destruct (negb b); [apply keeps_emit|].
  apply keeps_bind; [apply keeps_gets|]. intros mods.
  destruct mods; [apply keeps_emit|].
  destruct (String.eqb _ _); [apply keeps_ret|].
  apply keeps_bind; [apply keeps_status|]. intros _.
  apply keeps_try.
  - apply keeps_bind.
    + unfold persist_copy. apply keeps_bind; [apply keeps_gets|].
      intros path. apply keeps_bind; [apply keeps_fitz_open|].
      intros nd. apply keeps_bind; [apply keeps_gets|]. intros ms.
      apply keeps_bind; [apply keeps_lift|]. intros nd'.
      unfold doc_save. destruct (is_closed nd'); [apply keeps_raise|].
      destruct (save_ok _ _); [by apply keeps_modify | apply keeps_raise].
    + intros _. unfold adopt_saved.
      apply keeps_bind; [apply keeps_emit|]. intros _.
      apply keeps_bind; [apply keeps_status|]. intros _.
      apply keeps_bind; [apply keeps_gets|]. intros d'.
      apply keeps_bind; [apply keeps_lift|]. intros b'.
      apply keeps_bind;
        [destruct b'; [apply keeps_close_live | apply keeps_ret]|].
      intros _. apply keeps_bind; [apply keeps_fitz_open|].
      intros reopened. apply keeps_adopt, keeps_render.
  - intros e. apply keeps_bind; [apply keeps_emit|]. intros.
    apply keeps_status.
Qed.

Lemma keeps_navigation (idx : Z) :
  keeps_unique (modify (set_current_page_idx idx);;
                _clear_selection;; _render_page).
Proof.
  apply keeps_bind; [by apply keeps_modify|]. intros _.
  apply keeps_bind; [apply keeps_clear_selection|]. intros _.
  apply keeps_render.
Qed.

Lemma keeps_prev_page : keeps_unique prev_page.
Proof.
  unfold prev_page. apply keeps_bind; [apply keeps_gets|]. intros d.
  apply keeps_bind; [apply keeps_lift|]. intros b.
  destruct (negb b); [apply keeps_ret|].
  apply keeps_bind; [apply keeps_gets|]. intros idx.
  destruct (0 <? idx); [apply keeps_navigation | apply keeps_ret].
Qed.

Lemma keeps_next_page : keeps_unique next_page.
Proof.
  unfold next_page. apply keeps_bind; [apply keeps_gets|]. intros d.
  apply keeps_bind; [apply keeps_lift|]. intros b.
  destruct d as [d|], b; try apply keeps_ret.
  apply keeps_bind; [apply keeps_gets|]. intros idx.
  apply keeps_bind; [apply keeps_lift|]. intros n.
  destruct (idx <? n - 1); [apply keeps_navigation | apply keeps_ret].
Qed.

Lemma keeps_click cx cy : keeps_unique (on_canvas_click_select cx cy).
Proof.
  unfold on_canvas_click_select.
  apply keeps_bind; [apply keeps_gets|]. intros d.
  apply keeps_bind; [apply keeps_lift|]. intros b.
  destruct d as [d|], b; try apply keeps_status.
  apply keeps_bind; [apply keeps_clear_selection|]. intros _.
  apply keeps_bind; [apply keeps_gets|]. intros idx.
  apply keeps_bind; [apply keeps_lift|]. intros page.
  destruct (get_image_info page); [apply keeps_status|].
  destruct (hit_scan _ _ _) as [rect|]; [|apply keeps_status].
  destruct (to_canvas rect) as [[[cx0 cy0] cx1] cy1].
  apply keeps_bind;
    [apply keeps_painter, painter_canvas_create|]. intros id.
  apply keeps_bind; [by apply keeps_modify | intros; apply keeps_status].
Qed.

Lemma keeps_replace_image path : keeps_unique (replace_image path).
Proof.
  unfold replace_image. apply keeps_bind; [apply keeps_gets|]. intros mode.
  destruct mode; [|apply keeps_emit].
  apply keeps_bind; [apply keeps_gets|]. intros sel.
  destruct sel as [rect|]; [|apply keeps_emit].
  destruct (rect_bool rect); [|apply keeps_emit].
  destruct (String.eqb _ _); [apply keeps_status|].
  apply keeps_bind; [apply keeps_gets|]. intros idx.
  apply keeps_bind.
  - apply keeps_modify. intros a. apply unique_keys_add_or_replace.
  - intros _. apply keeps_bind; [apply keeps_status|]. intros _.
    apply keeps_render.
Qed.

Lemma keeps_clear_page_edits : keeps_unique clear_page_edits.
Proof.
  intros st r st' Hrun Hu.
  destruct (clear_page_edits_fields st) as [Hf _].
  unfold run in Hf. rewrite Hrun in Hf. simpl in Hf. rewrite Hf.
  eapply unique_keys_sublist; [|done]. apply sublist_filter.
Qed.

Lemma keeps_handle ev : keeps_unique (handle ev).
Proof.
  destruct ev; simpl.
  - apply keeps_open_pdf.
  - apply keeps_prev_page.
  - apply keeps_next_page.
  - apply keeps_click.
  - apply keeps_replace_image.
  - apply keeps_clear_page_edits.
  - apply keeps_save_pdf.
  - by apply keeps_modify.
Qed.

(** Whatever the user does, the ledger holds no two records for the same
    page and rectangle. *)
Lemma session_unique_keys (fs : gmap string (list Page)) (evs : list Event) :
  unique_keys (modifications (session fs evs)).
Proof.
  unfold session. generalize (initial fs) (unique_keys_nil : unique_keys
    (modifications (initial fs))).
  induction evs as [|ev evs IH]; intros st Hu; simpl; [done|].
  apply IH. unfold run.
  destruct (handle ev st) as [r st'] eqn:E. by eapply (keeps_handle ev).
Qed.

(** ** C1 *)

(** C1. For every sequence of [add_or_replace] calls on an empty ledger, no
    two records of the ledger have the same page and rectangle, and the
    record of the last call for a pair is the one stored for it.  A call
    that matches a stored record overwrites the first match in place, all
    other positions and the length being kept; a call that matches none
    appends.  [replace_image], once its guards pass, makes exactly this
    call for the current page, the selected rectangle and the chosen path;
    and in the application, whatever sequence of events the user produces,
    the ledger never holds two records for the same page and rectangle. *)
Theorem add_or_replace_unique_last_wins (calls : list ImageModification) :
  unique_keys (ledger_after calls) ∧
  (∀ before m after,
     calls = before ++ m :: after →
     (∀ c, c ∈ after → same_key c m = false) →
     m ∈ ledger_after calls ∧
     ∀ r, r ∈ ledger_after calls → same_key r m = true → r = m) ∧
  (∀ l new,
     (∃ e, e ∈ l ∧ same_key e new = true) →
     ∃ (i : nat) old,
       l !! i = Some old ∧ same_key old new = true ∧
       (∀ (j : nat) e, (j < i)%nat → l !! j = Some e →
                       same_key e new = false) ∧
       add_or_replace l new !! i = Some new ∧
       (∀ j : nat, j ≠ i → add_or_replace l new !! j = l !! j) ∧
       length (add_or_replace l new) = length l) ∧
  (∀ l new,
     (∀ e, e ∈ l → same_key e new = false) →
     add_or_replace l new = l ++ [new]) ∧
  (∀ (st : App) rect path,
     mode_var st = ModeSelect → selected_rect_pdf st = Some rect →
     rect_bool rect = true → path ≠ EmptyString →
     modifications (run (replace_image path) st) =
     add_or_replace (modifications st)
       (mkMod (current_page_idx st) rect path)) ∧
  (∀ fs evs, unique_keys (modifications (session fs evs))).
Proof.
  assert (Hu : unique_keys (ledger_after calls)).
  { apply unique_keys_ledger_after. intros i j a b _ Hi. by destruct i. }
  split; [done|]. split; [|split; [|split; [|split]]];
    [..|apply session_unique_keys].
  - intros before m after -> Hafter.
    assert (Hin : m ∈ ledger_after (before ++ m :: after)).
    { unfold ledger_after. rewrite foldl_app. simpl.
      apply ledger_keeps; [apply add_or_replace_new_in | done]. }
    split; [done|]. intros r Hr Hk.
    apply list_elem_of_lookup in Hin as [j Hj].
    apply list_elem_of_lookup in Hr as [i Hi].
    destruct (decide (i = j)) as [->|Hne]; [congruence|].
    rewrite (Hu i j r m Hne Hi Hj) in Hk. discriminate.
  - intros l new Hex.
    destruct (add_or_replace_hit l new Hex) as (i & old & Hi & Hk & Hf & ->).
    exists i, old. repeat split; try done.
    + apply list_lookup_insert_eq. by eapply lookup_lt_Some.
    + intros j Hne. by apply list_lookup_insert_ne.
    + apply length_insert.
  - apply add_or_replace_miss.
  - intros st rect path Hm Hs Hb Hp.
    unfold run, replace_image, _set_status, emit.
    unfold mbind, M_bind, bind, gets, modify. simpl.
    rewrite Hm, Hs, Hb.
    destruct (String.eqb_spec path EmptyString) as [->|_]; [done|].
    match goal with |- modifications (snd (_render_page ?s)) = _ =>
      destruct (render_fields s) as (_ & _ & _ & -> & _) end.
    done.
Qed.

(** ** C8 *)



Lemma doc_bool_open (d : Document) (i : Z) page :
  is_closed d = false → pages d !! Z.to_nat i = Some page →
  doc_bool (Some d) = Ok true.
Proof.
  intros Hc Hp. unfold doc_bool, doc_len. rewrite Hc.
  apply lookup_lt_Some in Hp.
  destruct (Z.eqb_spec (Z.of_nat (length (pages d))) 0); [lia | done].
Qed.

Lemma doc_getitem_open (d : Document) (i : Z) page :
  is_closed d = false → 0 ≤ i → pages d !! Z.to_nat i = Some page →
  doc_getitem d i = Ok page.
Proof.
  intros Hc Hi Hp. unfold doc_getitem. rewrite Hc, Hp.
  apply lookup_lt_Some in Hp.
  destruct (Z.leb_spec 0 i); [|lia].
  destruct (Z.ltb_spec i (Z.of_nat (length (pages d)))); [done | lia].
Qed.

(** [_clear_selection] empties the three selection fields and touches
    nothing but them and the canvas. *)
Lemma clear_selection_run st :
  ∃ c, _clear_selection st =
       (Ok tt, set_selection None None None (set_canvas c (canvas_next st) st)).
Proof.
  unfold _clear_selection, canvas_delete.
  unfold mbind, M_bind, bind, gets, modify, mret, M_ret, ret. simpl.
  destruct (selected_highlight_id st) as [id|]; simpl.
  - eexists. reflexivity.
  - exists (canvas st). by destruct st.
Qed.


(** ** C9 *)

Lemma doc_bool_nonempty (d : Document) :
  is_closed d = false → pages d ≠ [] → doc_bool (Some d) = Ok true.
Proof.
  intros Hc Hp. unfold doc_bool, doc_len. rewrite Hc.
  destruct (pages d); [done|]. simpl length.
  destruct (Z.eqb_spec (Z.of_nat (S (length l))) 0); [lia | done].
Qed.

(** After [_clear_selection] and a render nothing is selected. *)
Lemma cleared_then_rendered st :
  let st' := snd (_render_page (snd (_clear_selection st))) in
  selected_rect_pdf st' = None ∧ selected_rect_canvas st' = None ∧
  selected_highlight_id st' = None ∧
  current_page_idx st' = current_page_idx st.
Proof.
  simpl. destruct (clear_selection_run st) as [c ->].
  match goal with |- context [_render_page ?s] =>
    destruct (render_fields s) as (_ & _ & -> & _ & -> & -> & -> & _) end.
  done.
Qed.

(** C9 (amended). The selection is one optional rectangle.  On an open
    document, [prev_page] and [next_page], when they change the page, leave
    nothing selected; [replace_image] never changes the selected rectangle,
    so the selection stays after it has been used. *)
Theorem selection_cleared_by_navigation_only (st : App) (d : Document) :
  doc st = Some d → is_closed d = false → pages d ≠ [] →
  (0 < current_page_idx st →
     let st' := run prev_page st in
     current_page_idx st' = current_page_idx st - 1 ∧
     selected_rect_pdf st' = None ∧ selected_rect_canvas st' = None ∧
     selected_highlight_id st' = None) ∧
  (current_page_idx st < Z.of_nat (length (pages d)) - 1 →
     let st' := run next_page st in
     current_page_idx st' = current_page_idx st + 1 ∧
     selected_rect_pdf st' = None ∧ selected_rect_canvas st' = None ∧
     selected_highlight_id st' = None) ∧
  (∀ path,
     selected_rect_pdf (run (replace_image path) st) = selected_rect_pdf st).
Proof.
  intros Hd Hc Hp. split; [|split].
  - intros Hi.
    set (st1 := set_current_page_idx (current_page_idx st - 1) st).
    assert (E : run prev_page st =
                snd (_render_page (snd (_clear_selection st1)))).
    { unfold run, prev_page, mbind, M_bind, bind, gets, lift, modify. simpl.
      rewrite Hd, (doc_bool_nonempty d Hc Hp). simpl.
      destruct (Z.ltb_spec 0 (current_page_idx st)); [|lia].
      fold st1. by destruct (clear_selection_run st1) as [c ->]. }
    simpl. rewrite E.
    destruct (cleared_then_rendered st1) as (? & ? & ? & ?). done.
  - intros Hi.
    set (st1 := set_current_page_idx (current_page_idx st + 1) st).
    assert (E : run next_page st =
                snd (_render_page (snd (_clear_selection st1)))).
    { unfold run, next_page, mbind, M_bind, bind, gets, lift, modify. simpl.
      rewrite Hd, (doc_bool_nonempty d Hc Hp). simpl.
      unfold doc_len. rewrite Hc.
      destruct (Z.ltb_spec (current_page_idx st)
                  (Z.of_nat (length (pages d)) - 1)); [|lia].
      fold st1. by destruct (clear_selection_run st1) as [c ->]. }
    simpl. rewrite E.
    destruct (cleared_then_rendered st1) as (? & ? & ? & ?). done.
  - intros path. unfold run, replace_image, _set_status, emit.
    unfold mbind, M_bind, bind, gets, modify. simpl.
    destruct (mode_var st); [|done].
    destruct (selected_rect_pdf st) as [rect|] eqn:Es; [|done].
    destruct (rect_bool rect); [|done].
    destruct (String.eqb path EmptyString); [done|].
    match goal with |- selected_rect_pdf (snd (_render_page ?s)) = _ =>
      destruct (render_fields s) as (_ & _ & _ & _ & -> & _) end.
    done.
Qed.

(** ** Opening a file that cannot be opened *)

(** With a document open, a failed [open_pdf] shows the error and keeps
    path, page and ledger, but the document it keeps has been closed. *)
Lemma open_pdf_missing_file (st : App) (d : Document) (path : string) :
  doc st = Some d → doc_bool (Some d) = Ok true →
  path ≠ EmptyString → files st !! path = None →
  run (open_pdf path) st =
  set_ui (ui st ++ [ShowError "Open PDF" FileDataError;
                    SetStatus StFailedOpen])
    (set_doc (Some (close d)) st).
Proof.
  intros Hd Hb Hp Hf. unfold run, open_pdf.
  destruct (String.eqb_spec path EmptyString); [done|].
  unfold try_except, open_body, close_live, fitz_open, _set_status, emit.
  unfold mbind, M_bind, bind, gets, lift, modify, raise. simpl.
  rewrite Hd, Hb. simpl. rewrite Hf. simpl.
  unfold set_ui, set_doc. simpl. by rewrite Hd, <- app_assoc.
Qed.

(** With no document open, it shows the error and changes nothing else. *)
Lemma open_pdf_missing_file_first (st : App) (path : string) :
  doc st = None → path ≠ EmptyString → files st !! path = None →
  run (open_pdf path) st =
  set_ui (ui st ++ [ShowError "Open PDF" FileDataError;
                    SetStatus StFailedOpen]) st.
Proof.
  intros Hd Hp Hf. unfold run, open_pdf.
  destruct (String.eqb_spec path EmptyString); [done|].
  unfold try_except, open_body, close_live, fitz_open, _set_status, emit.
  unfold mbind, M_bind, bind, gets, lift, modify, raise, mret, M_ret, ret.
  simpl. rewrite Hd. simpl. rewrite Hf. simpl.
  unfold set_ui. simpl. by rewrite <- app_assoc.
Qed.

(** ** C2 *)

Lemma apply_mods_is_closed mods (nd nd' : Document) :
  apply_mods mods nd = Ok nd' → is_closed nd' = is_closed nd.
Proof.
  revert nd. induction mods as [|m mods IH]; intros nd; simpl.
  - by intros [= ->].
  - destruct (doc_len nd) as [n|e]; [|done].
    destruct (_ && _); [|apply IH].
    destruct (doc_getitem nd _) as [p|e]; [|done].
    destruct (draw_rect p _) as [p1|e]; [|done].
    destruct (insert_image p1 _ _) as [p2|e]; [|done].
    intros Happ. by rewrite (IH _ Happ).
Qed.

(** Writing the copy either fails and changes nothing, or stores the edited
    copy at [out_path] and changes nothing else. *)
Lemma persist_copy_eq (out_path : string) (st : App) :
  persist_copy out_path st =
  match edited_copy st with
  | Raise e => (Raise e, st)
  | Ok nd =>
      if save_ok (pages nd) out_path
      then (Ok tt, set_files (<[out_path := pages nd]> (files st)) st)
      else (Raise SaveError, st)
  end.
Proof.
  unfold persist_copy, edited_copy, fitz_open, doc_save.
  unfold mbind, M_bind, bind, gets, lift, modify, raise, mret, M_ret, ret.
  simpl.
  destruct (doc_path st) as [p|]; simpl.
  - destruct (files st !! p) as [ps|]; [|done].
    destruct (apply_mods _ _) as [nd|e] eqn:E; [|done].
    apply apply_mods_is_closed in E. simpl in E. rewrite E.
    by destruct (save_ok _ _).
  - destruct (apply_mods _ _) as [nd|e] eqn:E; [|done].
    apply apply_mods_is_closed in E. simpl in E. rewrite E.
    by destruct (save_ok _ _).
Qed.

(** C2. [save_pdf], called with a document open, a ledger that is not empty
    and a path chosen, applies the ledger to a copy opened from
    [self.doc_path], never to the live document.  When writing the copy
    succeeds, the ledger is empty afterwards and the session's document is
    the file just written, reopened from [out_path].  When it fails, the
    whole state is as before the call but for the messages shown: same live
    document, same path, same page, same ledger, same files. *)
Theorem save_pdf_commits_or_keeps (st : App) (out_path : string) :
  doc_bool (doc st) = Ok true →
  modifications st ≠ [] →
  out_path ≠ EmptyString →
  let st' := run (save_pdf out_path) st in
  match fst (persist_copy out_path st) with
  | Ok _ =>
      ∃ nd, edited_copy st = Ok nd ∧
        files st' = <[out_path := pages nd]> (files st) ∧
        doc st' = Some (mkDoc (pages nd) false) ∧
        doc_path st' = Some out_path ∧
        current_page_idx st' = 0 ∧
        modifications st' = []
  | Raise e =>
      st' = set_ui (ui st ++ [SetStatus StSaving; ShowError "Save Error" e;
                              SetStatus StSaveFailed]) st
  end.
Proof.
  intros Hb Hm Hp st'.
  set (st_s := set_ui (ui st ++ [SetStatus StSaving]) st).
  assert (Hrun : st' =
    snd (try_except (persist_copy out_path ≫= λ _, adopt_saved out_path)
           (λ e, emit (ShowError "Save Error" e) ≫= λ _,
                 _set_status StSaveFailed) st_s)).
  { subst st'. unfold run, save_pdf.
    unfold mbind, M_bind, bind at 1 2 3, gets at 1 2, lift at 1. simpl.
    rewrite Hb. simpl. destruct (modifications st); [done|].
    destruct (String.eqb_spec out_path EmptyString); [done|].
    unfold bind at 1, _set_status at 1, emit at 1, modify at 1. done. }
  rewrite persist_copy_eq.
  assert (Hs : persist_copy out_path st_s =
    match edited_copy st with
    | Raise e => (Raise e, st_s)
    | Ok nd =>
        if save_ok (pages nd) out_path
        then (Ok tt, set_files (<[out_path := pages nd]> (files st)) st_s)
        else (Raise SaveError, st_s)
    end) by (rewrite persist_copy_eq; reflexivity).
  assert (Hfail : ∀ e, persist_copy out_path st_s = (Raise e, st_s) →
    st' = set_ui (ui st ++ [SetStatus StSaving; ShowError "Save Error" e;
                            SetStatus StSaveFailed]) st).
  { intros e He. rewrite Hrun. unfold try_except, mbind, M_bind, bind.
    rewrite He. unfold _set_status, emit, modify. simpl.
    unfold set_ui. simpl. by rewrite <- !app_assoc. }
  destruct (edited_copy st) as [nd|e]; [|by apply Hfail].
  destruct (save_ok (pages nd) out_path); [|by apply Hfail].
  simpl. exists nd. split; [done|].
  set (st_p := set_files (<[out_path := pages nd]> (files st)) st_s) in Hs.
  set (st_a :=
    set_modifications []
      (set_current_page_idx 0
        (set_doc_path (Some out_path)
          (set_doc (Some (mkDoc (pages nd) false))
            (set_doc (close <$> doc st_p)
              (set_ui ((ui st_p ++ [ShowInfo "Saved"]) ++
                       [SetStatus (StSaved out_path)]) st_p)))))).
  assert (Ha : adopt_saved out_path st_p = _render_page st_a).
  { unfold adopt_saved, close_live, fitz_open, _set_status, emit.
    unfold mbind, M_bind, bind, gets, lift, modify, mret, M_ret, ret. simpl.
    rewrite Hb. simpl. by rewrite lookup_insert_eq. }
  destruct (render_fields st_a)
    as (Hf1 & Hf2 & Hf3 & Hf4 & _ & _ & _ & _ & Hf5 & _).
  assert (Hfin : ∃ u, st' = set_ui u (snd (_render_page st_a))).
  { rewrite Hrun. unfold try_except, mbind, M_bind, bind.
    rewrite Hs. fold st_p. rewrite Ha.
    destruct (_render_page st_a) as [[[]|e] st_r]; simpl.
    - exists (ui st_r). by destruct st_r.
    - unfold _set_status, emit, modify. simpl. eexists. reflexivity. }
  destruct Hfin as [u ->]. simpl.
  by rewrite Hf1, Hf2, Hf3, Hf4, Hf5.
Qed.

End WithEngine.
End EditorFacts.

Module DemoFacts.
Import Editor EditorFacts Demo.
#[local] Existing Instance demo_engine.

Example opened_doc :
  doc opened = Some (mkDoc [page0; []] false) ∧ current_page_idx opened = 0.
Proof. vm_compute. done. Qed.

Example selected_square :
  selected_rect_pdf selected = Some square ∧
  selected_rect_canvas selected = Some (15, 15, 75, 75).
Proof. vm_compute. done. Qed.

Example scheduled_ledger :
  modifications scheduled = [mkMod 0 square "b.png"].
Proof. vm_compute. done. Qed.

(** The scenario of the specification: a ledger holding page 0, rectangle
    (10,10,50,50), [a.png]; the call for the same pair with [b.png] leaves
    one record, with [b.png]. *)
Example add_or_replace_scenario :
  add_or_replace [mkMod 0 square "a.png"] (mkMod 0 square "b.png") =
  [mkMod 0 square "b.png"].
Proof. reflexivity. Qed.

(** [replace_image] cancelled at the file dialog, on the session with a
    selection. *)
Lemma replace_image_guards_keep_ledger_witness :
  (mode_var selected ≠ ModeSelect ∨ selected_rect_pdf selected = None ∨
   EmptyString = EmptyString) ∧
  modifications (run (replace_image EmptyString) selected) =
  modifications selected.
Proof.
  split; [by right; right|].
  apply (replace_image_guards_keep_ledger selected EmptyString).
  by right; right.
Defined.


(** [next_page] from the first page of [a.pdf], with the square selected. *)
Lemma selection_cleared_by_navigation_only_witness :
  (doc selected = Some (mkDoc [page0; []] false) ∧
   is_closed (mkDoc [page0; []] false) = false ∧
   pages (mkDoc [page0; []] false) ≠ []) ∧
  selected_rect_pdf selected = Some square ∧
  selected_rect_pdf (run next_page selected) = None.
Proof.
  assert (H1 : doc selected = Some (mkDoc [page0; []] false))
    by (vm_compute; reflexivity).
  assert (H2 : is_closed (mkDoc [page0; []] false) = false) by reflexivity.
  assert (H3 : pages (mkDoc [page0; []] false) ≠ []) by discriminate.
  split; [done|]. split; [vm_compute; reflexivity|].
  destruct (selection_cleared_by_navigation_only selected _ H1 H2 H3)
    as (_ & Hnext & _).
  apply Hnext. vm_compute. reflexivity.
Defined.

(** C9, as stated, fails: the square is selected, [replace_image] uses it
    for the record it schedules, and the square is still selected
    afterwards. *)
Lemma selection_survives_replace_image :
  selected_rect_pdf selected = Some square ∧
  modifications (run (replace_image "b.png") selected) =
    [mkMod 0 square "b.png"] ∧
  selected_rect_pdf (run (replace_image "b.png") selected) = Some square ∧
  selected_rect_pdf (run (replace_image "b.png") selected) ≠ None.
Proof. vm_compute. repeat split; discriminate. Qed.

(** Saving the scheduled replacement to [out.pdf]. *)
Lemma save_pdf_commits_or_keeps_witness :
  (doc_bool (doc scheduled) = Ok true ∧ modifications scheduled ≠ [] ∧
   "out.pdf" ≠ EmptyString) ∧
  modifications (run (save_pdf "out.pdf") scheduled) = [] ∧
  doc_path (run (save_pdf "out.pdf") scheduled) = Some "out.pdf".
Proof.
  assert (H1 : doc_bool (doc scheduled) = Ok true)
    by (vm_compute; reflexivity).
  assert (H2 : modifications scheduled ≠ []) by (vm_compute; discriminate).
  assert (H3 : "out.pdf" ≠ EmptyString) by discriminate.
  split; [done|].
  pose proof (save_pdf_commits_or_keeps scheduled "out.pdf" H1 H2 H3) as Hs.
  assert (E : fst (persist_copy "out.pdf" scheduled) = Ok tt)
    by (vm_compute; reflexivity).
  simpl in Hs. rewrite E in Hs.
  destruct Hs as (nd & _ & _ & _ & Hp & _ & Hm). done.
Defined.

(** A save that cannot be written leaves the session as it was. *)
Example save_pdf_locked :
  let st' := run (save_pdf "/locked/out.pdf") scheduled in
  doc st' = doc scheduled ∧ doc_path st' = doc_path scheduled ∧
  modifications st' = modifications scheduled ∧
  files st' = files scheduled.
Proof. vm_compute. done. Qed.

(** The scenario of the specification: a record for page 5 of a document
    of two pages is skipped and the save succeeds. *)
Example save_pdf_skips_page_out_of_range :
  apply_mods [mkMod 5 square "b.png"] (mkDoc [page0; []] false) =
  Ok (mkDoc [page0; []] false).
Proof. reflexivity. Qed.

(** ** C6 *)

(** C6 on the code: with [a.pdf] open and a replacement scheduled, the user
    picks [broken.pdf], which cannot be opened.  The failure is shown in a
    dialog and in the status line, and path, page and ledger are as before;
    but the live document has been closed, and the next handler that looks
    at it raises. *)
Theorem open_pdf_failure_closes_live_document :
  let st' := run (open_pdf "broken.pdf") scheduled in
  doc scheduled = Some (mkDoc [page0; []] false) ∧
  doc st' = Some (mkDoc [page0; []] true) ∧
  doc_path st' = doc_path scheduled ∧
  current_page_idx st' = current_page_idx scheduled ∧
  modifications st' = modifications scheduled ∧
  ui st' = ui scheduled ++ [ShowError "Open PDF" FileDataError;
                            SetStatus StFailedOpen] ∧
  fst (next_page st') = Raise DocumentClosed.
Proof. vm_compute. done. Qed.

End DemoFacts.

(** * Properties of the speech worker *)

Module TTSFacts.
Import TTS.
Section WithSpeechEngine.
Variable init_ok : nat → bool.
Variable start_ok : nat → bool.

Lemma run_sched_app (a b : list Label) (s : Sys) :
  run_sched init_ok start_ok (a ++ b) s =
  run_sched init_ok start_ok b (run_sched init_ok start_ok a s).
Proof. unfold TTS.run_sched. by rewrite foldl_app. Qed.

Lemma run_sched_cons (l : Label) (rest : list Label) (s : Sys) :
  run_sched init_ok start_ok (l :: rest) s =
  run_sched init_ok start_ok rest (step init_ok start_ok l s).
Proof. reflexivity. Qed.





(** ** C3 *)


(** ** C5 *)

(** C5 (amended). When engine initialisation fails in a started worker, the
    worker's first step ends it, with no engine, and changes nothing else:
    queue, stop event, the other workers, what was spoken and where the
    user-interface thread stands are as before, and so is the readiness
    flag, which keeps the value [__init__] gave it.  The ended worker never
    moves again. *)
Theorem init_failure_ends_worker_only (s : Sys) (w : nat) :
  workers s !! w = Some WStarted → init_ok w = false →
  let s' := step init_ok start_ok (Worker w) s in
  workers s' = <[w := WExited None]> (workers s) ∧
  tts_ready s' = tts_ready s ∧
  tts_queue s' = tts_queue s ∧ tts_stop_event s' = tts_stop_event s ∧
  tts_worker s' = tts_worker s ∧ engines s' = engines s ∧
  spoken s' = spoken s ∧ stopped s' = stopped s ∧ ui_pc s' = ui_pc s ∧
  step init_ok start_ok (Worker w) s' = s'.
Proof.
  intros Hw Hi s'.
  assert (E : s' = set_worker w (WExited None) s).
  { subst s'. simpl. unfold worker_step. by rewrite Hw, Hi. }
  rewrite E. simpl. repeat split. unfold worker_step. simpl.
  rewrite list_lookup_insert_eq; [done|]. by eapply lookup_lt_Some.
Qed.

End WithSpeechEngine.
End TTSFacts.

Module TTSDemoFacts.
Import TTS TTSFacts TTSDemo.



(** A text queued after [stop_speaking] has returned is spoken by the new
    worker. *)
Example later_task_spoken :
  spoken (run_sched always always
            (CallStop :: replicate 9 Ui ++
             [Put "again"; Worker 1; Worker 1; Worker 1; Worker 1])
            hello_world) = ["again"].
Proof. vm_compute. reflexivity. Qed.

(** ** C4 *)

(** C4 on the code: [stop_speaking] is called while the worker is in the
    middle of an utterance that outlasts the join.  The call returns with a
    second worker started; the first one finishes its utterance, finds the
    stop event clear and stays in its loop: its cleanup never runs, and it
    speaks the next text that is queued. *)
Theorem stop_speaking_leaves_busy_worker_running :
  let after := run_sched always always stop_while_busy busy in
  let later := run_sched always always [Worker 0; Worker 0] after in
  workers busy = [WSay 0 "a long paragraph"] ∧
  ui_pc after = UIdle ∧
  workers after = [WSay 0 "a long paragraph"; WStarted] ∧
  tts_worker after = Some 1%nat ∧
  workers later = [WGet 0; WStarted] ∧
  stopped later = [] ∧
  workers (run_sched always always [Put "next"; Worker 0; Worker 0; Worker 1]
             later) = [WLoop 0; WLoop 1] ∧
  spoken (run_sched always always [Put "next"; Worker 0; Worker 0; Worker 1]
            later) = ["a long paragraph"; "next"].
Proof. vm_compute. done. Qed.

(** An idle worker does see the stop event and ends before the new one
    starts. *)
Example stop_speaking_ends_idle_worker :
  workers (run_sched always always
             [Worker 0; CallStop; Ui; Ui; Worker 0; Ui; Ui; Ui]
             (app_init always)) = [WExited (Some 0%nat); WStarted].
Proof. vm_compute. reflexivity. Qed.

(** ** C5 *)

(** C5, as stated, fails: the engine cannot be initialised, the worker
    ends at once, and the readiness flag still says that speech is ready. *)
Lemma init_failure_leaves_ready_flag_set :
  workers (run_sched never always [Worker 0] (app_init always)) =
    [WExited None] ∧
  tts_ready (run_sched never always [Worker 0] (app_init always)) = true ∧
  tts_ready (run_sched never always [Worker 0] (app_init always)) ≠ false.
Proof. vm_compute. repeat split; discriminate. Qed.

Lemma init_failure_ends_worker_only_witness :
  (workers (app_init always) !! 0%nat = Some WStarted ∧ never 0%nat = false) ∧
  workers (step never always (Worker 0) (app_init always)) = [WExited None] ∧
  tts_ready (step never always (Worker 0) (app_init always)) = true.
Proof.
  split; [done|].
  destruct (init_failure_ends_worker_only never always (app_init always) 0%nat
              eq_refl eq_refl) as (Hw & Hr & _).
  split; [exact Hw | exact Hr].
Defined.

End TTSDemoFacts.

(** * What each handler does to the fields, up to painting *)

Module SessionFacts.
Import Editor EditorFacts Session.
Section WithEngine.
Context `{DocEngine}.

(** Two states with the same fields are the same state. *)
Lemma app_ext (a b : App) :
  doc a = doc b → doc_path a = doc_path b →
  current_page_idx a = current_page_idx b →
  modifications a = modifications b →
  selected_rect_pdf a = selected_rect_pdf b →
  selected_rect_canvas a = selected_rect_canvas b →
  selected_highlight_id a = selected_highlight_id b →
  mode_var a = mode_var b → canvas a = canvas b →
  canvas_next a = canvas_next b → ui a = ui b → files a = files b →
  a = b.
Proof. destruct a, b; simpl; intros; by subst. Qed.

Lemma paints_set_canvas (st : App) c n : paints st (set_canvas c n st).
Proof.
  exists c, n, []. destruct st; unfold set_ui, set_canvas; simpl.
  by rewrite app_nil_r.
Qed.

Lemma painter_run (m : M unit) (st : App) : painter m → paints st (run m st).
Proof.
  intros Hp. unfold run. destruct (m st) as [r st'] eqn:E. by eapply Hp.
Qed.

Lemma doc_bool_true (o : option Document) :
  doc_bool o = Ok true →
  ∃ d, o = Some d ∧ is_closed d = false ∧ pages d ≠ [].
Proof.
  destruct o as [d|]; [|done]. unfold doc_bool, doc_len.
  destruct (is_closed d) eqn:Hc; [done|]. intros Hb. exists d.
  split; [done|]. split; [done|]. intros Hp. rewrite Hp in Hb.
  discriminate Hb.
Qed.

(** Clearing the selection and rendering, from [st]. *)
Lemma clear_render_paints (st : App) :
  paints (set_selection None None None st)
    (snd (_render_page (snd (_clear_selection st)))).
Proof.
  destruct (clear_selection_run st) as [c ->]. simpl.
  eapply paints_trans;
    [apply (paints_set_canvas _ c (canvas_next st))|].
  apply (painter_run _render_page), painter_render.
Qed.

Lemma prev_page_summary (st : App) :
  paints st (run prev_page st) ∨
  ∃ d, doc st = Some d ∧ is_closed d = false ∧ pages d ≠ [] ∧
       0 < current_page_idx st ∧
       paints (set_selection None None None
                 (set_current_page_idx (current_page_idx st - 1) st))
              (run prev_page st).
Proof.
  unfold run at 1 2, prev_page, mbind, M_bind, bind, gets, lift, modify.
  simpl. destruct (doc_bool (doc st)) as [[|]|e] eqn:Hb; simpl;
    try (left; apply paints_refl).
  destruct (Z.ltb_spec 0 (current_page_idx st));
    [|left; apply paints_refl].
  right. destruct (doc_bool_true _ Hb) as (d & Hd & Hc & Hp).
  exists d. repeat split; try done.
  set (st1 := set_current_page_idx _ st).
  pose proof (clear_render_paints st1) as Hcr.
  destruct (clear_selection_run st1) as [c E]. rewrite E in *. exact Hcr.
Qed.

Lemma next_page_summary (st : App) :
  paints st (run next_page st) ∨
  ∃ d, doc st = Some d ∧ is_closed d = false ∧ pages d ≠ [] ∧
       current_page_idx st < Z.of_nat (length (pages d)) - 1 ∧
       paints (set_selection None None None
                 (set_current_page_idx (current_page_idx st + 1) st))
              (run next_page st).
Proof.
  unfold run at 1 2, next_page, mbind, M_bind, bind, gets, lift, modify.
  simpl. destruct (doc_bool (doc st)) as [[|]|e] eqn:Hb; simpl;
    try (left; destruct (doc st); apply paints_refl).
  destruct (doc_bool_true _ Hb) as (d & Hd & Hc & Hp). rewrite Hd.
  unfold doc_len. rewrite Hc. simpl.
  destruct (Z.ltb_spec (current_page_idx st)
              (Z.of_nat (length (pages d)) - 1));
    [|left; apply paints_refl].
  right. exists d. repeat split; try done.
  set (st1 := set_current_page_idx _ st).
  pose proof (clear_render_paints st1) as Hcr.
  destruct (clear_selection_run st1) as [c E]. rewrite E in *. exact Hcr.
Qed.

Lemma paints_emit (st : App) (e : UIEvent) : paints st (set_ui (ui st ++ [e]) st).
Proof. exists (canvas st), (canvas_next st), [e]. by destruct st. Qed.

Lemma run_result (m : M unit) (st : App) : ∃ r, m st = (r, run m st).
Proof. unfold run. destruct (m st) as [r st']. by exists r. Qed.

Lemma click_summary (st : App) (cx cy : Q) :
  let st' := run (on_canvas_click_select cx cy) st in
  paints st st' ∨
  paints (set_selection None None None st) st' ∨
  ∃ rect id,
    paints (set_selection (Some rect) (Some (to_canvas rect)) (Some id) st)
           st'.
Proof.
  intros st'. destruct (run_result (on_canvas_click_select cx cy) st)
    as [r E]. fold st' in E. clearbody st'. revert E.
  unfold on_canvas_click_select, mbind, M_bind, bind, gets, lift. simpl.
  destruct (doc_bool (doc st)) as [[|]|e] eqn:Hb; simpl.
  - destruct (doc_bool_true _ Hb) as (d & Hd & Hc & Hp). rewrite Hd.
    destruct (clear_selection_run st) as [c ->].
    set (st1 := set_selection None None None (set_canvas c _ st)).
    assert (H1 : paints (set_selection None None None st) st1)
      by apply (paints_set_canvas (set_selection None None None st)).
    simpl. destruct (doc_getitem d _) as [page|e]; simpl;
      [|intros [= <- <-]; by right; left].
    destruct (get_image_info page) as [|r0 rs].
    { intros [= <- <-]. right; left. eapply paints_trans; [done|].
      apply (paints_emit st1). }
    destruct (hit_scan _ _ _) as [rect|].
    + unfold to_canvas, canvas_create, _set_status, emit.
      unfold mbind, M_bind, bind, gets, modify, mret, M_ret, ret. simpl.
      intros [= <- <-]. right; right. exists rect, (canvas_next st).
      eexists _, _, [_]. reflexivity.
    + intros [= <- <-]. right; left. eapply paints_trans; [done|].
      apply (paints_emit st1).
  - destruct (doc st); intros [= <- <-]; left; apply paints_emit.
  - intros [= <- <-]. left. apply paints_refl.
Qed.

Lemma replace_image_summary (st : App) (path : string) :
  let st' := run (replace_image path) st in
  paints st st' ∨
  ∃ rect, selected_rect_pdf st = Some rect ∧
    paints (set_modifications
              (add_or_replace (modifications st)
                 (mkMod (current_page_idx st) rect path)) st) st'.
Proof.
  simpl. unfold run, replace_image, _set_status, emit.
  unfold mbind, M_bind, bind, gets, modify. simpl.
  destruct (mode_var st); [|left; apply paints_emit].
  destruct (selected_rect_pdf st) as [rect|] eqn:Es;
    [|left; apply paints_emit].
  destruct (rect_bool rect); [|left; apply paints_emit].
  destruct (String.eqb path EmptyString); [left; apply paints_emit|].
  right. exists rect. split; [done|].
  eapply paints_trans; [apply paints_emit|].
  apply (painter_run _render_page), painter_render.
Qed.

Lemma clear_page_edits_summary (st : App) :
  paints (set_modifications
            (without_page (modifications st) (current_page_idx st)) st)
         (run clear_page_edits st).
Proof.
  unfold run, clear_page_edits, _set_status, emit.
  unfold mbind, M_bind, bind, gets, modify. simpl.
  eapply paints_trans; [apply paints_emit|].
  apply (painter_run _render_page), painter_render.
Qed.

Lemma paints_emit2 (st : App) (a b : UIEvent) :
  paints st (set_ui (ui (set_ui (ui st ++ [a]) st) ++ [b])
               (set_ui (ui st ++ [a]) st)).
Proof.
  eapply paints_trans; [apply (paints_emit st a)|].
  apply (paints_emit (set_ui (ui st ++ [a]) st) b).
Qed.

Lemma open_pdf_summary (st : App) (path : string) :
  let st' := run (open_pdf path) st in
  paints st st' ∨
  (∃ d, doc st = Some d ∧ paints (set_doc (Some (close d)) st) st') ∨
  (∃ ps, files st !! path = Some ps ∧ paints (adopted ps path st) st').
Proof.
  intros st'. destruct (run_result (open_pdf path) st) as [r E].
  fold st' in E. clearbody st'. revert E. unfold open_pdf.
  destruct (String.eqb path EmptyString).
  { intros [= <- <-]. left. apply paints_refl. }
  unfold try_except, open_body, close_live, fitz_open, _set_status, emit.
  unfold mbind, M_bind, bind, gets, lift, modify, raise, mret, M_ret, ret.
  simpl.
  destruct (doc_bool (doc st)) as [[|]|e] eqn:Hb; simpl.
  - destruct (doc_bool_true _ Hb) as (d & Hd & Hc & Hp).
    destruct (files st !! path) as [ps|] eqn:Hf.
    + match goal with |- context [_render_page ?X] =>
        destruct (_render_page X) as [[[]|e] s] eqn:Er end;
        intros [= <- <-]; right; right; exists ps; (split; [done|]);
        refine (paints_trans _ s _
                  (painter_render _ _ _ Er : paints (adopted ps path st) s) _).
      * apply paints_emit.
      * apply paints_emit2.
    + intros [= <- <-]. right; left. exists d. split; [done|].
      rewrite Hd. apply (paints_emit2 (set_doc (Some (close d)) st)).
  - destruct (files st !! path) as [ps|] eqn:Hf.
    + match goal with |- context [_render_page ?X] =>
        destruct (_render_page X) as [[[]|e] s] eqn:Er end;
        intros [= <- <-]; right; right; exists ps; (split; [done|]);
        refine (paints_trans _ s _
                  (painter_render _ _ _ Er : paints (adopted ps path st) s) _).
      * apply paints_emit.
      * apply paints_emit2.
    + intros [= <- <-]. left. apply paints_emit2.
  - intros [= <- <-]. left. apply paints_emit2.
Qed.

Lemma save_pdf_summary (st : App) (out_path : string) :
  let st' := run (save_pdf out_path) st in
  paints st st' ∨
  ∃ nd, edited_copy st = Ok nd ∧ save_ok (pages nd) out_path = true ∧
    doc_bool (doc st) = Ok true ∧ modifications st ≠ [] ∧
    paints (adopted (pages nd) out_path
              (set_files (<[out_path := pages nd]> (files st)) st)) st'.
Proof.
  intros st'. destruct (run_result (save_pdf out_path) st) as [r E].
  fold st' in E. clearbody st'. revert E. unfold save_pdf.
  unfold mbind, M_bind, bind at 1 2 3, gets at 1 2, lift at 1. simpl.
  destruct (doc_bool (doc st)) as [[|]|e] eqn:Hb; simpl;
    [| intros [= <- <-]; left; apply paints_emit
     | intros [= <- <-]; left; apply paints_refl].
  destruct (modifications st) as [|m0 ms] eqn:Hm;
    [intros [= <- <-]; left; apply paints_emit|].
  destruct (String.eqb out_path EmptyString);
    [intros [= <- <-]; left; apply paints_refl|].
  unfold bind at 1, _set_status at 1, emit at 1, modify at 1.
  set (st_s := set_ui (ui st ++ [SetStatus StSaving]) st).
  assert (Hs : paints st st_s) by apply paints_emit.
  unfold try_except, bind at 1. rewrite persist_copy_eq.
  change (edited_copy st_s) with (edited_copy st).
  destruct (edited_copy st) as [nd|e] eqn:Hcopy.
  2:{ unfold bind, _set_status, emit, modify. intros [= <- <-]. left.
      eapply paints_trans; [done|]. apply (paints_emit2 st_s). }
  destruct (save_ok (pages nd) out_path) eqn:Hok.
  2:{ unfold bind, _set_status, emit, modify. intros [= <- <-]. left.
      eapply paints_trans; [done|]. apply (paints_emit2 st_s). }
  set (st_p := set_files _ st_s).
  set (core := adopted (pages nd) out_path
                 (set_files (<[out_path := pages nd]> (files st)) st)).
  set (st_a :=
    set_modifications []
      (set_current_page_idx 0
        (set_doc_path (Some out_path)
          (set_doc (Some (mkDoc (pages nd) false))
            (set_doc (close <$> doc st_p)
              (set_ui ((ui st_p ++ [ShowInfo "Saved"]) ++
                       [SetStatus (StSaved out_path)]) st_p)))))).
  assert (Ha : adopt_saved out_path st_p = _render_page st_a).
  { unfold adopt_saved, close_live, fitz_open, _set_status, emit.
    unfold mbind, M_bind, bind, gets, lift, modify, mret, M_ret, ret. simpl.
    rewrite Hb. simpl. by rewrite lookup_insert_eq. }
  assert (Hc : paints core st_a).
  { exists (canvas st), (canvas_next st),
      [SetStatus StSaving; ShowInfo "Saved"; SetStatus (StSaved out_path)].
    apply app_ext; try reflexivity.
    subst st_a st_p st_s core. simpl. by rewrite <- !app_assoc. }
  rewrite Ha.
  destruct (_render_page st_a) as [[[]|e] s] eqn:Er; intros Hr;
    right; exists nd; (repeat split; [done..|]);
    (eapply paints_trans; [exact Hc|]);
    (eapply paints_trans; [by eapply painter_render|]).
  - injection Hr as <- <-. apply paints_refl.
  - revert Hr. unfold bind, _set_status, emit, modify.
    intros [= <- <-]. apply paints_emit2.
Qed.

(** ** Invariants of every session *)

Lemma page_in_range_paints a b :
  paints a b → page_in_range a → page_in_range b.
Proof.
  intros Hp. destruct (paints_fields a b Hp) as (Hd & _ & Hi & _).
  unfold page_in_range. by rewrite Hd, Hi.
Qed.

Lemma ledger_in_range_paints a b :
  paints a b → ledger_in_range a → ledger_in_range b.
Proof.
  intros Hp. destruct (paints_fields a b Hp) as (Hd & _ & _ & Hm & _).
  unfold ledger_in_range. by rewrite Hd, Hm.
Qed.

Lemma selection_coherent_paints a b :
  paints a b → selection_coherent a → selection_coherent b.
Proof.
  intros Hp.
  destruct (paints_fields a b Hp) as (_ & _ & _ & _ & H1 & H2 & H3 & _).
  unfold selection_coherent. by rewrite H1, H2, H3.
Qed.

Lemma file_coherent_paints a b :
  paints a b → file_coherent a → file_coherent b.
Proof.
  intros Hp.
  destruct (paints_fields a b Hp)
    as (Hd & Hpa & _ & _ & _ & _ & _ & _ & Hf & _).
  unfold file_coherent. by rewrite Hd, Hpa, Hf.
Qed.

Lemma elem_of_add_or_replace (l : list ImageModification) new m :
  m ∈ add_or_replace l new → m ∈ l ∨ m = new.
Proof.
  destruct (add_or_replace_cases l new)
    as [(i & old & Hi & _ & _ & ->) | [_ ->]].
  - intros Hm. apply list_elem_of_lookup in Hm as [j Hj].
    apply list_lookup_insert_Some in Hj as [(_ & -> & _) | (_ & Hj)];
      [by right | left; by eapply list_elem_of_lookup_2].
  - intros Hm. apply elem_of_app in Hm as [Hm | Hm]; [by left|].
    right. by apply list_elem_of_singleton in Hm.
Qed.

Lemma page_in_range_adopted ps path st : page_in_range (adopted ps path st).
Proof.
  split; [done|]. simpl. intros d [= <-] Hp. simpl in *.
  destruct ps; [done|]. simpl. lia.
Qed.

Lemma handle_page_in_range (ev : Event) (st : App) :
  page_in_range st → page_in_range (run (handle ev) st).
Proof.
  intros Hi. destruct ev as [path| | |cx cy|path| |out_path|mode]; simpl.
  - destruct (open_pdf_summary st path)
      as [Hp | [(d & Hd & Hp) | (ps & _ & Hp)]];
      eapply page_in_range_paints; try exact Hp; try done.
    + destruct Hi as [H0 Hlt]. split; [done|]. simpl.
      intros d' [= <-]. apply (Hlt d Hd).
    + apply page_in_range_adopted.
  - destruct (prev_page_summary st) as [Hp | (d & Hd & _ & _ & Hlt & Hp)];
      eapply page_in_range_paints; try exact Hp; try done.
    destruct Hi as [H0 Hr]. split; simpl; [lia|].
    intros d' Hd' Hne. specialize (Hr d' Hd' Hne). lia.
  - destruct (next_page_summary st) as [Hp | (d & Hd & _ & _ & Hlt & Hp)];
      eapply page_in_range_paints; try exact Hp; try done.
    destruct Hi as [H0 Hr]. split; simpl; [lia|].
    intros d' Hd' Hne. rewrite Hd in Hd'. injection Hd' as <-. lia.
  - destruct (click_summary st cx cy) as [Hp | [Hp | (rect & id & Hp)]];
      eapply page_in_range_paints; try exact Hp; done.
  - destruct (replace_image_summary st path) as [Hp | (rect & _ & Hp)];
      eapply page_in_range_paints; try exact Hp; done.
  - eapply page_in_range_paints; [apply clear_page_edits_summary | done].
  - destruct (save_pdf_summary st out_path) as [Hp | (nd & _ & _ & _ & _ & Hp)];
      eapply page_in_range_paints; try exact Hp; try done.
    apply page_in_range_adopted.
  - done.
Qed.

Lemma handle_ledger_in_range (ev : Event) (st : App) :
  page_in_range st → ledger_in_range st →
  ledger_in_range (run (handle ev) st).
Proof.
  intros Hi Hl. destruct ev as [path| | |cx cy|path| |out_path|mode]; simpl.
  - destruct (open_pdf_summary st path)
      as [Hp | [(d & Hd & Hp) | (ps & _ & Hp)]];
      eapply ledger_in_range_paints; try exact Hp; try done.
    + intros m Hm. destruct (Hl m Hm) as [H0 Hlt]. split; [done|]. simpl.
      intros d' [= <-]. apply (Hlt d Hd).
    + intros m Hm. by apply elem_of_nil in Hm.
  - destruct (prev_page_summary st) as [Hp | (d & _ & _ & _ & _ & Hp)];
      eapply ledger_in_range_paints; try exact Hp; done.
  - destruct (next_page_summary st) as [Hp | (d & _ & _ & _ & _ & Hp)];
      eapply ledger_in_range_paints; try exact Hp; done.
  - destruct (click_summary st cx cy) as [Hp | [Hp | (rect & id & Hp)]];
      eapply ledger_in_range_paints; try exact Hp; done.
  - destruct (replace_image_summary st path) as [Hp | (rect & _ & Hp)];
      eapply ledger_in_range_paints; try exact Hp; try done.
    intros m Hm. simpl in Hm.
    apply elem_of_add_or_replace in Hm as [Hm | ->]; [by apply Hl|].
    exact Hi.
  - eapply ledger_in_range_paints; [apply clear_page_edits_summary|].
    intros m Hm. simpl in Hm. unfold without_page in Hm.
    apply list_elem_of_filter in Hm as [_ Hm]. by apply Hl.
  - destruct (save_pdf_summary st out_path) as [Hp | (nd & _ & _ & _ & _ & Hp)];
      eapply ledger_in_range_paints; try exact Hp; try done.
    intros m Hm. by apply elem_of_nil in Hm.
  - done.
Qed.

Lemma handle_selection_coherent (ev : Event) (st : App) :
  selection_coherent st → selection_coherent (run (handle ev) st).
Proof.
  intros Hs.
  assert (Hnone : ∀ st0, selection_coherent (set_selection None None None st0)).
  { intros st0. split; [done|]. simpl. split; intros [? [=]]. }
  assert (Hsome : ∀ st0 rect id,
    selection_coherent
      (set_selection (Some rect) (Some (to_canvas rect)) (Some id) st0)).
  { intros st0 rect id. split; [done|]. simpl. split; eauto. }
  destruct ev as [path| | |cx cy|path| |out_path|mode]; simpl.
  - destruct (open_pdf_summary st path)
      as [Hp | [(d & Hd & Hp) | (ps & _ & Hp)]];
      (eapply selection_coherent_paints; [exact Hp|]); exact Hs.
  - destruct (prev_page_summary st) as [Hp | (d & _ & _ & _ & _ & Hp)];
      (eapply selection_coherent_paints; [exact Hp|]);
      [exact Hs | apply Hnone].
  - destruct (next_page_summary st) as [Hp | (d & _ & _ & _ & _ & Hp)];
      (eapply selection_coherent_paints; [exact Hp|]);
      [exact Hs | apply Hnone].
  - destruct (click_summary st cx cy) as [Hp | [Hp | (rect & id & Hp)]];
      (eapply selection_coherent_paints; [exact Hp|]);
      [exact Hs | apply Hnone | apply Hsome].
  - destruct (replace_image_summary st path) as [Hp | (rect & _ & Hp)];
      (eapply selection_coherent_paints; [exact Hp|]); exact Hs.
  - eapply selection_coherent_paints; [apply clear_page_edits_summary|].
    exact Hs.
  - destruct (save_pdf_summary st out_path) as [Hp | (nd & _ & _ & _ & _ & Hp)];
      (eapply selection_coherent_paints; [exact Hp|]); exact Hs.
  - exact Hs.
Qed.

Lemma handle_file_coherent (ev : Event) (st : App) :
  file_coherent st → file_coherent (run (handle ev) st).
Proof.
  intros Hf. destruct ev as [path| | |cx cy|path| |out_path|mode]; simpl.
  - destruct (open_pdf_summary st path)
      as [Hp | [(d & Hd & Hp) | (ps & Hps & Hp)]];
      eapply file_coherent_paints; try exact Hp; try done.
    + unfold file_coherent in *. rewrite Hd in Hf. simpl. done.
    + unfold file_coherent. simpl. by exists path.
  - destruct (prev_page_summary st) as [Hp | (d & _ & _ & _ & _ & Hp)];
      eapply file_coherent_paints; try exact Hp; done.
  - destruct (next_page_summary st) as [Hp | (d & _ & _ & _ & _ & Hp)];
      eapply file_coherent_paints; try exact Hp; done.
  - destruct (click_summary st cx cy) as [Hp | [Hp | (rect & id & Hp)]];
      eapply file_coherent_paints; try exact Hp; done.
  - destruct (replace_image_summary st path) as [Hp | (rect & _ & Hp)];
      eapply file_coherent_paints; try exact Hp; done.
  - eapply file_coherent_paints; [apply clear_page_edits_summary | done].
  - destruct (save_pdf_summary st out_path) as [Hp | (nd & _ & _ & _ & _ & Hp)];
      eapply file_coherent_paints; try exact Hp; try done.
    unfold file_coherent. simpl. exists out_path. split; [done|].
    apply lookup_insert_eq.
  - done.
Qed.

Lemma session_invariants (fs : gmap string (list Page)) (evs : list Event) :
  page_in_range (session fs evs) ∧ ledger_in_range (session fs evs) ∧
  selection_coherent (session fs evs) ∧ file_coherent (session fs evs).
Proof.
  unfold session.
  assert (P0 : page_in_range (initial fs))
    by (split; [done | intros d [=]]).
  assert (L0 : ledger_in_range (initial fs))
    by (intros m Hm; by apply elem_of_nil in Hm).
  assert (S0 : selection_coherent (initial fs))
    by (split; [done | split; intros [? [=]]]).
  assert (F0 : file_coherent (initial fs)) by reflexivity.
  revert P0 L0 S0 F0. generalize (initial fs).
  induction evs as [|ev evs IH]; intros st H1 H2 H3 H4; simpl.
  - done.
  - apply IH.
    + by apply handle_page_in_range.
    + by apply handle_ledger_in_range.
    + by apply handle_selection_coherent.
    + by apply handle_file_coherent.
Qed.

(** X1. Whatever the user does, the current page index is not negative
    and, when the open document has pages, it is smaller than their number:
    [prev_page] and [next_page] never step outside the document, and a
    document that is opened or saved is shown from its first page. *)
Theorem session_page_in_range (fs : gmap string (list Page))
    (evs : list Event) :
  page_in_range (session fs evs).
Proof. apply session_invariants. Qed.

(** X2. Whatever the user does, every record of the ledger is for a page
    of the open document: its page number is not negative and, when the
    document has pages, smaller than their number. *)
Theorem session_ledger_in_range (fs : gmap string (list Page))
    (evs : list Event) :
  ledger_in_range (session fs evs).
Proof. apply session_invariants. Qed.

(** X3. Whatever the user does, the three selection fields agree: the
    canvas rectangle is the selected rectangle scaled by the zoom, each
    coordinate truncated, and a highlight identifier is stored exactly when
    a rectangle is selected. *)
Theorem session_selection_coherent (fs : gmap string (list Page))
    (evs : list Event) :
  selection_coherent (session fs evs).
Proof. apply session_invariants. Qed.

(** X4. Whatever the user does, and as long as only the editor writes the
    files, an open document has a path, and the file at that path holds
    the pages of the open document; with no document there is no path. *)
Theorem session_file_coherent (fs : gmap string (list Page))
    (evs : list Event) :
  file_coherent (session fs evs).
Proof. apply session_invariants. Qed.

(** X5. In every session with a document that has pages, the copy that
    [save_pdf] edits starts from the pages of the document on display, and
    every record of the ledger names a page of it, so the test of line 455
    skips none. *)
Theorem session_save_uses_every_record (fs : gmap string (list Page))
    (evs : list Event) (d : Document) :
  doc (session fs evs) = Some d → pages d ≠ [] →
  edited_copy (session fs evs) =
    apply_mods (modifications (session fs evs)) (mkDoc (pages d) false) ∧
  Forall (λ m, page_exists (Z.of_nat (length (pages d))) m = true)
         (modifications (session fs evs)).
Proof.
  intros Hd Hp.
  destruct (session_invariants fs evs) as (_ & Hl & _ & Hf). split.
  - unfold file_coherent in Hf. rewrite Hd in Hf.
    destruct Hf as (p & Hpath & Hfile). unfold edited_copy.
    by rewrite Hpath, Hfile.
  - apply Forall_forall. intros m Hm. destruct (Hl m Hm) as [H0 Hlt].
    specialize (Hlt d Hd Hp). unfold page_exists.
    apply andb_true_iff. split; [by apply Z.leb_le | by apply Z.ltb_lt].
Qed.

(** ** Rendering *)

(** The overlay loop adds one item per record of the page, in ledger
    order, and nothing else. *)
Lemma render_mods_run (mods : list ImageModification) (idx : Z) (st : App) :
  render_mods mods idx st =
  let items := overlay_item <$> filter (λ m, page_num m = idx) mods in
  (Ok tt,
   set_canvas (canvas st ++ number_from (canvas_next st) items)
     (Nat.iter (length items) Pos.succ (canvas_next st)) st).
Proof.
  revert st. induction mods as [|m mods IH]; intros st.
  - simpl. unfold mret, M_ret, ret. f_equal.
    apply app_ext; try reflexivity. simpl. by rewrite app_nil_r.
  - rewrite filter_cons. simpl render_mods.
    destruct (Z.eqb_spec (page_num m) idx) as [E|E].
    + rewrite decide_True by done. rewrite fmap_cons.
      unfold overlay_item at 1. unfold to_canvas. simpl.
      destruct (image_ok _ _ _);
        unfold mbind, M_bind, bind, canvas_create, gets, modify, mret,
          M_ret, ret; simpl; rewrite IH; simpl; f_equal;
        (apply app_ext; try reflexivity; simpl;
         [by rewrite <- app_assoc | by rewrite <- Nat.iter_succ_r]).
    + rewrite decide_False by done.
      unfold mbind, M_bind, bind, mret, M_ret, ret. apply IH.
Qed.

(** X6. On an open document whose current page exists, [_render_page]
    replaces the canvas by the page image followed by one item for each
    ledger record of that page, in ledger order (the replacement image at
    the record's rectangle in canvas coordinates, or a white box when the
    image cannot be loaded), with fresh consecutive identifiers; it sets
    the page label and the status, and changes no other field. *)
Theorem render_page_shows_page_and_overlays (st : App) (d : Document) :
  doc st = Some d → is_closed d = false →
  0 ≤ current_page_idx st < Z.of_nat (length (pages d)) →
  let idx := current_page_idx st in
  let items :=
    PageImage ::
    (overlay_item <$> filter (λ m, page_num m = idx) (modifications st)) in
  _render_page st =
  (Ok tt,
   set_ui (ui st ++ [PageLabel (idx + 1) (Z.of_nat (length (pages d)));
                     SetStatus (StDisplayed (idx + 1))])
     (set_canvas (number_from (canvas_next st) items)
        (Nat.iter (length items) Pos.succ (canvas_next st)) st)).
Proof.
  intros Hd Hc [H0 Hlt] idx items.
  assert (Hne : pages d ≠ []) by (intros E; rewrite E in Hlt; simpl in Hlt; lia).
  destruct (lookup_lt_is_Some_2 (pages d) (Z.to_nat idx)) as [page Hpage];
    [subst idx; lia|].
  unfold _render_page, canvas_delete_all, canvas_create, _set_status, emit.
  unfold mbind, M_bind, bind, modify, gets, lift, mret, M_ret, ret. simpl.
  rewrite Hd, (doc_bool_nonempty d Hc Hne). simpl.
  unfold doc_len. rewrite Hc. fold idx.
  destruct (Z.leb_spec 0 idx); [|lia].
  destruct (Z.ltb_spec idx (Z.of_nat (length (pages d)))); [|lia]. simpl.
  rewrite (doc_getitem_open d idx page Hc H0 Hpage).
  rewrite render_mods_run. simpl. f_equal.
  apply app_ext; try reflexivity; simpl.
  - by rewrite <- Nat.iter_succ_r.
  - by rewrite <- app_assoc.
Qed.

(** ** Applying the ledger to the copy *)

(** X7. When the ledger is applied to a document, the result has as many
    pages as before, and a page for which the ledger has no record is
    unchanged. *)
Theorem apply_mods_keeps_other_pages (mods : list ImageModification)
    (nd nd' : Document) :
  apply_mods mods nd = Ok nd' →
  length (pages nd') = length (pages nd) ∧
  ∀ i : nat, (∀ m, m ∈ mods → page_num m ≠ Z.of_nat i) →
             pages nd' !! i = pages nd !! i.
Proof.
  revert nd. induction mods as [|m mods IH]; intros nd; simpl.
  - by intros [= ->].
  - destruct (doc_len nd) as [n|e]; [|done].
    destruct (_ && _) eqn:Hr.
    + destruct (doc_getitem nd _) as [p|e]; [|done].
      destruct (draw_rect p _) as [p1|e]; [|done].
      destruct (insert_image p1 _ _) as [p2|e]; [|done].
      intros Happ. destruct (IH _ Happ) as [Hlen Hother]. simpl in *.
      rewrite length_insert in Hlen. split; [done|].
      intros i Hi. rewrite Hother.
      * apply list_lookup_insert_ne. intros E.
        apply (Hi m); [by left|].
        apply andb_true_iff in Hr as [Hr _]. apply Z.leb_le in Hr. lia.
      * intros m' Hm'. apply Hi. by right.
    + intros Happ. destruct (IH _ Happ) as [Hlen Hother]. split; [done|].
      intros i Hi. apply Hother. intros m' Hm'. apply Hi. by right.
Qed.

(** X8. Records whose page is not in the document have no effect on what
    is saved: applying the ledger gives the same result, or the same
    error, as applying only the records whose page exists. *)
Theorem apply_mods_skips_missing_pages (mods : list ImageModification)
    (nd : Document) :
  is_closed nd = false →
  apply_mods mods nd =
  apply_mods
    (filter (λ m, page_exists (Z.of_nat (length (pages nd))) m = true) mods)
    nd.
Proof.
  revert nd. induction mods as [|m mods IH]; intros nd Hc; [done|].
  rewrite filter_cons. simpl. unfold doc_len, page_exists. rewrite Hc.
  destruct (_ && _) eqn:Hr.
  - rewrite decide_True by done. simpl. unfold doc_len. rewrite Hc, Hr.
    destruct (doc_getitem nd _) as [p|e]; [|done].
    destruct (draw_rect p _) as [p1|e]; [|done].
    destruct (insert_image p1 _ _) as [p2|e]; [|done].
    rewrite IH by done. simpl. by rewrite length_insert.
  - rewrite decide_False by done. by apply IH.
Qed.

(** ** Replacing and clearing, one after the other *)

Lemma find_existing_shift (l : list ImageModification) new (k : nat) :
  find_existing l new (S k) = S <$> find_existing l new k.
Proof.
  revert k. induction l as [|e l IH]; intros k; simpl; [done|].
  destruct (same_key e new); [done | apply IH].
Qed.

Lemma add_or_replace_cons (e : ImageModification) l new :
  add_or_replace (e :: l) new =
  if same_key e new then new :: l else e :: add_or_replace l new.
Proof.
  unfold add_or_replace. simpl. destruct (same_key e new); [done|].
  rewrite find_existing_shift. by destruct (find_existing l new 0).
Qed.

Lemma add_or_replace_twice (l : list ImageModification) a b :
  same_key a b = true →
  add_or_replace (add_or_replace l a) b = add_or_replace l b.
Proof.
  intros Hab. induction l as [|e l IH].
  - unfold add_or_replace. simpl. by rewrite Hab.
  - rewrite !add_or_replace_cons. destruct (same_key e a) eqn:Ea.
    + rewrite add_or_replace_cons, Hab.
      by rewrite (same_key_trans e a b Ea Hab).
    + rewrite add_or_replace_cons. destruct (same_key e b) eqn:Eb.
      * rewrite same_key_sym in Hab.
        rewrite (same_key_trans e b a Eb Hab) in Ea. discriminate.
      * by rewrite IH.
Qed.

Lemma add_or_replace_length_hit (l : list ImageModification) a b :
  same_key a b = true →
  length (add_or_replace (add_or_replace l a) b) =
  length (add_or_replace l a).
Proof.
  intros Hab.
  destruct (add_or_replace_hit (add_or_replace l a) b)
    as (i & old & _ & _ & _ & ->).
  - exists a. split; [apply add_or_replace_new_in | done].
  - apply length_insert.
Qed.

Lemma without_page_add_or_replace (l : list ImageModification) new :
  without_page (add_or_replace l new) (page_num new) =
  without_page l (page_num new).
Proof.
  unfold without_page. induction l as [|e l IH].
  - unfold add_or_replace. simpl. rewrite filter_cons.
    by rewrite decide_False by (intros E; by apply E).
  - rewrite add_or_replace_cons. destruct (same_key e new) eqn:Ek.
    + unfold same_key in Ek. apply andb_true_iff in Ek as [Ek _].
      apply Z.eqb_eq in Ek. rewrite !filter_cons.
      rewrite decide_False by (intros E; by apply E).
      by rewrite decide_False by (intros E; by apply E).
    + rewrite !filter_cons. by rewrite IH.
Qed.

(** What [replace_image] does once its three guards pass. *)
Lemma replace_image_run (st : App) (rect : Rect) (path : string) :
  mode_var st = ModeSelect → selected_rect_pdf st = Some rect →
  rect_bool rect = true → path ≠ EmptyString →
  paints (set_modifications
            (add_or_replace (modifications st)
               (mkMod (current_page_idx st) rect path)) st)
         (run (replace_image path) st).
Proof.
  intros Hm Hs Hb Hp. unfold run, replace_image, _set_status, emit.
  unfold mbind, M_bind, bind, gets, modify. simpl. rewrite Hm, Hs, Hb.
  destruct (String.eqb_spec path EmptyString); [done|].
  eapply paints_trans; [apply paints_emit|].
  apply (painter_run _render_page), painter_render.
Qed.

(** X9. Replacing the selected image a second time, with another file,
    only changes the file of its record: the ledger is what a single
    replacement with the second file would have given, and it is as long
    as after the first replacement. *)
Theorem replace_image_again_keeps_one_record (st : App) (rect : Rect)
    (first second : string) :
  mode_var st = ModeSelect → selected_rect_pdf st = Some rect →
  rect_bool rect = true →
  first ≠ EmptyString → second ≠ EmptyString →
  let once := run (replace_image first) st in
  let twice := run (replace_image second) once in
  modifications twice =
    add_or_replace (modifications st)
      (mkMod (current_page_idx st) rect second) ∧
  length (modifications twice) = length (modifications once).
Proof.
  intros Hm Hs Hb H1 H2 once twice.
  pose proof (replace_image_run st rect first Hm Hs Hb H1) as Ho.
  fold once in Ho.
  destruct (paints_fields _ _ Ho)
    as (_ & _ & Hidx & Hmods & Hsel & _ & _ & Hmode & _).
  simpl in Hidx, Hmods, Hsel, Hmode.
  assert (Hm' : mode_var once = ModeSelect) by congruence.
  assert (Hs' : selected_rect_pdf once = Some rect) by congruence.
  pose proof (replace_image_run once rect second Hm' Hs' Hb H2) as Ht.
  fold twice in Ht.
  destruct (paints_fields _ _ Ht) as (_ & _ & _ & Hmods2 & _).
  simpl in Hmods2. rewrite Hmods2, Hmods, Hidx.
  assert (Hk : same_key (mkMod (current_page_idx st) rect first)
                 (mkMod (current_page_idx st) rect second) = true).
  { unfold same_key. simpl. rewrite Z.eqb_refl. simpl.
    unfold rect_eqb. by rewrite !Qeq_bool_refl. }
  split; [by apply add_or_replace_twice | by apply add_or_replace_length_hit].
Qed.

(** X10. A replacement followed by [clear_page_edits] on the same page
    leaves the ledger as clearing alone would have: the new record goes
    with the others of the page. *)
Theorem clear_page_edits_undoes_replace_image (st : App) (rect : Rect)
    (path : string) :
  mode_var st = ModeSelect → selected_rect_pdf st = Some rect →
  rect_bool rect = true → path ≠ EmptyString →
  modifications (run clear_page_edits (run (replace_image path) st)) =
  modifications (run clear_page_edits st).
Proof.
  intros Hm Hs Hb Hp.
  pose proof (replace_image_run st rect path Hm Hs Hb Hp) as Ho.
  destruct (paints_fields _ _ Ho) as (_ & _ & Hidx & Hmods & _).
  simpl in Hidx, Hmods.
  destruct (clear_page_edits_fields (run (replace_image path) st)) as [-> _].
  destruct (clear_page_edits_fields st) as [-> _].
  rewrite Hmods, Hidx.
  apply (without_page_add_or_replace (modifications st)
           (mkMod (current_page_idx st) rect path)).
Qed.

(** ** Navigation *)

Lemma prev_page_run (st : App) (d : Document) :
  doc st = Some d → is_closed d = false → pages d ≠ [] →
  if 0 <? current_page_idx st
  then paints (set_selection None None None
                 (set_current_page_idx (current_page_idx st - 1) st))
              (run prev_page st)
  else run prev_page st = st.
Proof.
  intros Hd Hc Hp.
  unfold run, prev_page, mbind, M_bind, bind, gets, lift, modify. simpl.
  rewrite Hd, (doc_bool_nonempty d Hc Hp). simpl.
  destruct (0 <? current_page_idx st); [|done].
  set (st1 := set_current_page_idx _ st).
  pose proof (clear_render_paints st1) as Hcr.
  destruct (clear_selection_run st1) as [c E]. rewrite E in *. exact Hcr.
Qed.

Lemma next_page_run (st : App) (d : Document) :
  doc st = Some d → is_closed d = false → pages d ≠ [] →
  if current_page_idx st <? Z.of_nat (length (pages d)) - 1
  then paints (set_selection None None None
                 (set_current_page_idx (current_page_idx st + 1) st))
              (run next_page st)
  else run next_page st = st.
Proof.
  intros Hd Hc Hp.
  unfold run, next_page, mbind, M_bind, bind, gets, lift, modify. simpl.
  rewrite Hd, (doc_bool_nonempty d Hc Hp). simpl.
  unfold doc_len. rewrite Hc. simpl.
  destruct (current_page_idx st <? Z.of_nat (length (pages d)) - 1);
    [|done].
  set (st1 := set_current_page_idx _ st).
  pose proof (clear_render_paints st1) as Hcr.
  destruct (clear_selection_run st1) as [c E]. rewrite E in *. exact Hcr.
Qed.

(** X11. On an open document, [prev_page] on the first page and
    [next_page] on the last page change nothing at all, not even the
    selection; from any other page, going forward and then back, or back
    and then forward, returns to the page one started from. *)
Theorem navigation_round_trip (st : App) (d : Document) :
  doc st = Some d → is_closed d = false → pages d ≠ [] →
  0 ≤ current_page_idx st < Z.of_nat (length (pages d)) →
  let last := Z.of_nat (length (pages d)) - 1 in
  (current_page_idx st = 0 → run prev_page st = st) ∧
  (current_page_idx st = last → run next_page st = st) ∧
  (current_page_idx st < last →
     current_page_idx (run prev_page (run next_page st)) =
     current_page_idx st) ∧
  (0 < current_page_idx st →
     current_page_idx (run next_page (run prev_page st)) =
     current_page_idx st).
Proof.
  intros Hd Hc Hp [H0 Hlt] last.
  pose proof (prev_page_run st d Hd Hc Hp) as Hprev.
  pose proof (next_page_run st d Hd Hc Hp) as Hnext.
  split; [|split; [|split]].
  - intros E. rewrite E in Hprev. exact Hprev.
  - intros E. rewrite E in Hnext. fold last in Hnext.
    by rewrite Z.ltb_irrefl in Hnext.
  - intros Hl. fold last in Hnext.
    destruct (Z.ltb_spec (current_page_idx st) last); [|lia].
    destruct (paints_fields _ _ Hnext) as (Hd1 & _ & Hi1 & _).
    simpl in Hd1, Hi1. rewrite Hd in Hd1.
    pose proof (prev_page_run (run next_page st) d Hd1 Hc Hp) as Hback.
    rewrite Hi1 in Hback.
    destruct (Z.ltb_spec 0 (current_page_idx st + 1)); [|lia].
    destruct (paints_fields _ _ Hback) as (_ & _ & -> & _). simpl. lia.
  - intros Hl.
    destruct (Z.ltb_spec 0 (current_page_idx st)); [|lia].
    destruct (paints_fields _ _ Hprev) as (Hd1 & _ & Hi1 & _).
    simpl in Hd1, Hi1. rewrite Hd in Hd1.
    pose proof (next_page_run (run prev_page st) d Hd1 Hc Hp) as Hfwd.
    rewrite Hi1 in Hfwd. fold last in Hfwd.
    destruct (Z.ltb_spec (current_page_idx st - 1) last); [|lia].
    destruct (paints_fields _ _ Hfwd) as (_ & _ & -> & _). simpl. lia.
Qed.

(** ** Clicks *)


Lemma hit_scan_is_Some (images : list ImageInfo) buffer_pdf p info :
  info ∈ images → in_buffered_bounds buffer_pdf p info = true →
  is_Some (hit_scan images buffer_pdf p).
Proof.
  intros Hin Hhit. destruct (hit_scan images buffer_pdf p) eqn:E; [eauto|].
  exfalso. revert Hin Hhit E.
  induction images as [|x images IH]; intros Hin Hhit; simpl.
  - by apply elem_of_nil in Hin.
  - unfold in_buffered_bounds in *.
    apply elem_of_cons in Hin as [->|Hin].
    + destruct (bbox x); [|done]. by rewrite Hhit.
    + destruct (bbox x); [destruct (rect_contains _ p); [done|]|]; auto.
Qed.

Lemma rect_contains_buffered (r : Rect) (p : Q * Q) (buffer_pdf : Q) :
  (0 <= buffer_pdf)%Q → rect_contains r p = true →
  rect_contains (buffered r buffer_pdf) p = true.
Proof.
  intros Hb. unfold rect_contains, buffered. simpl.
  rewrite !andb_true_iff, !negb_true_iff.
  intros [[[H1 H2] H3] H4].
  apply Qle_bool_iff in H1, H3.
  assert (N2 : ¬ (x1 r <= p.1)%Q) by (rewrite <- Qle_bool_iff; congruence).
  assert (N4 : ¬ (y1 r <= p.2)%Q) by (rewrite <- Qle_bool_iff; congruence).
  repeat split.
  - apply Qle_bool_iff. lra.
  - apply not_true_is_false. rewrite Qle_bool_iff. lra.
  - apply Qle_bool_iff. lra.
  - apply not_true_is_false. rewrite Qle_bool_iff. lra.
Qed.

(** What the click handler selects on an open document whose current page
    exists: the result of the scan. *)
Lemma click_selected (st : App) (d : Document) (page : Page) (cx cy : Q) :
  doc st = Some d → is_closed d = false →
  0 ≤ current_page_idx st →
  pages d !! Z.to_nat (current_page_idx st) = Some page →
  selected_rect_pdf (run (on_canvas_click_select cx cy) st) =
  hit_scan (get_image_info page) (8 / zoom) (cx / zoom, cy / zoom)%Q.
Proof.
  intros Hd Hc Hi Hp.
  destruct (run_result (on_canvas_click_select cx cy) st) as [r E].
  revert E. generalize (run (on_canvas_click_select cx cy) st). intros st'.
  unfold on_canvas_click_select, mbind, M_bind, bind, gets, lift. simpl.
  rewrite Hd, (doc_bool_open d _ page Hc Hp).
  destruct (clear_selection_run st) as [c ->]. simpl.
  rewrite (doc_getitem_open d _ page Hc Hi Hp).
  destruct (get_image_info page) as [|r0 rs]; [by intros [= <- <-]|].
  destruct (hit_scan _ _ _) as [rect|]; [|by intros [= <- <-]].
  unfold to_canvas, canvas_create, _set_status, emit.
  unfold mbind, M_bind, bind, gets, modify, mret, M_ret, ret. simpl.
  by intros [= <- <-].
Qed.


(** X13. The tolerance only enlarges the targets: a click that falls
    inside the bounding box of some region of the current page always
    selects a region. *)
Theorem click_inside_region_selects (st : App) (d : Document)
    (page : Page) (cx cy : Q) (info : ImageInfo) (b : Q * Q * Q * Q) :
  doc st = Some d → is_closed d = false →
  0 ≤ current_page_idx st →
  pages d !! Z.to_nat (current_page_idx st) = Some page →
  info ∈ get_image_info page → bbox info = Some b →
  rect_contains (Rect_of b) (cx / zoom, cy / zoom)%Q = true →
  is_Some (selected_rect_pdf (run (on_canvas_click_select cx cy) st)).
Proof.
  intros Hd Hc Hi Hp Hin Hb Hcont.
  rewrite (click_selected st d page cx cy Hd Hc Hi Hp).
  apply (hit_scan_is_Some _ _ _ info Hin).
  unfold in_buffered_bounds. rewrite Hb.
  apply rect_contains_buffered; [|done]. by vm_compute.
Qed.

(** ** Saving twice *)

(** When the copy can be edited and written, [save_pdf] takes it. *)
Lemma save_pdf_written (st : App) (out_path : string) (nd : Document) :
  doc_bool (doc st) = Ok true → modifications st ≠ [] →
  out_path ≠ EmptyString →
  edited_copy st = Ok nd → save_ok (pages nd) out_path = true →
  paints (adopted (pages nd) out_path
            (set_files (<[out_path := pages nd]> (files st)) st))
         (run (save_pdf out_path) st).
Proof.
  intros Hb Hm Hp Hcopy Hok.
  destruct (run_result (save_pdf out_path) st) as [r E].
  revert E. generalize (run (save_pdf out_path) st). intros st'.
  unfold save_pdf.
  unfold mbind, M_bind, bind at 1 2 3, gets at 1 2, lift at 1. simpl.
  rewrite Hb. simpl. destruct (modifications st) as [|m0 ms] eqn:Hmods;
    [done|].
  destruct (String.eqb_spec out_path EmptyString); [done|].
  unfold bind at 1, _set_status at 1, emit at 1, modify at 1.
  set (st_s := set_ui (ui st ++ [SetStatus StSaving]) st).
  unfold try_except, bind at 1. rewrite persist_copy_eq.
  change (edited_copy st_s) with (edited_copy st). rewrite Hcopy, Hok.
  set (st_p := set_files _ st_s).
  set (core := adopted (pages nd) out_path
                 (set_files (<[out_path := pages nd]> (files st)) st)).
  set (st_a :=
    set_modifications []
      (set_current_page_idx 0
        (set_doc_path (Some out_path)
          (set_doc (Some (mkDoc (pages nd) false))
            (set_doc (close <$> doc st_p)
              (set_ui ((ui st_p ++ [ShowInfo "Saved"]) ++
                       [SetStatus (StSaved out_path)]) st_p)))))).
  assert (Ha : adopt_saved out_path st_p = _render_page st_a).
  { unfold adopt_saved, close_live, fitz_open, _set_status, emit.
    unfold mbind, M_bind, bind, gets, lift, modify, mret, M_ret, ret. simpl.
    rewrite Hb. simpl. by rewrite lookup_insert_eq. }
  assert (Hc : paints core st_a).
  { exists (canvas st), (canvas_next st),
      [SetStatus StSaving; ShowInfo "Saved"; SetStatus (StSaved out_path)].
    apply app_ext; try reflexivity.
    subst st_a st_p st_s core. simpl. by rewrite <- !app_assoc. }
  rewrite Ha.
  destruct (_render_page st_a) as [[[]|e] s] eqn:Er; intros Hr;
    (eapply paints_trans; [exact Hc|]);
    (eapply paints_trans; [by eapply painter_render|]).
  - injection Hr as <- <-. apply paints_refl.
  - revert Hr. unfold bind, _set_status, emit, modify.
    intros [= <- <-]. apply paints_emit2.
Qed.

(** X14. After a save that wrote its file, the ledger is empty, so a second
    save, to whatever path, writes no file and changes neither the
    document nor its path, page, ledger or selection: it only shows a
    message. *)
Theorem save_pdf_again_writes_nothing (st : App) (out_path again : string) :
  doc_bool (doc st) = Ok true → modifications st ≠ [] →
  out_path ≠ EmptyString →
  fst (persist_copy out_path st) = Ok tt →
  let saved := run (save_pdf out_path) st in
  let st' := run (save_pdf again) saved in
  modifications saved = [] ∧
  files st' = files saved ∧ doc st' = doc saved ∧
  doc_path st' = doc_path saved ∧
  current_page_idx st' = current_page_idx saved ∧
  modifications st' = [] ∧
  selected_rect_pdf st' = selected_rect_pdf saved.
Proof.
  intros Hb Hm Hp Hok saved st'.
  assert (Hs : modifications saved = []).
  { revert Hok. rewrite persist_copy_eq.
    destruct (edited_copy st) as [nd|e] eqn:Hcopy; [|done].
    destruct (save_ok (pages nd) out_path) eqn:Hsave; [|done]. intros _.
    pose proof (save_pdf_written st out_path nd Hb Hm Hp Hcopy Hsave) as Hw.
    fold saved in Hw.
    by destruct (paints_fields _ _ Hw) as (_ & _ & _ & -> & _). }
  split; [done|].
  destruct (save_pdf_summary saved again)
    as [Hpa | (nd & _ & _ & _ & Hne & _)]; [|done].
  fold st' in Hpa.
  destruct (paints_fields _ _ Hpa)
    as (-> & -> & -> & -> & -> & _ & _ & _ & -> & _).
  by rewrite Hs.
Qed.

End WithEngine.
End SessionFacts.

Module SessionDemoFacts.
Import Editor EditorFacts Session SessionFacts Demo.
#[local] Existing Instance demo_engine.

(** The session of [Demo]: open [a.pdf], click its first image, choose
    [b.png]. *)
Lemma session_save_uses_every_record_witness :
  (doc (session disk [OpenPdf "a.pdf"; ClickSelect 30 30;
                      ReplaceImage "b.png"]) =
     Some (mkDoc [page0; []] false) ∧
   pages (mkDoc [page0; []] false) ≠ []) ∧
  Forall (λ m, page_exists 2 m = true)
    (modifications (session disk [OpenPdf "a.pdf"; ClickSelect 30 30;
                                  ReplaceImage "b.png"])).
Proof.
  assert (H1 : doc (session disk [OpenPdf "a.pdf"; ClickSelect 30 30;
                                  ReplaceImage "b.png"]) =
               Some (mkDoc [page0; []] false)) by (vm_compute; reflexivity).
  assert (H2 : pages (mkDoc [page0; []] false) ≠ []) by discriminate.
  split; [done|].
  apply (@session_save_uses_every_record demo_engine disk _ _ H1 H2).
Defined.

Lemma render_page_shows_page_and_overlays_witness :
  (doc scheduled = Some (mkDoc [page0; []] false) ∧
   is_closed (mkDoc [page0; []] false) = false ∧
   0 ≤ current_page_idx scheduled <
     Z.of_nat (length (pages (mkDoc [page0; []] false)))) ∧
  canvas (snd (_render_page scheduled)) =
    [(5%positive, PageImage); (6%positive, ReplacementImage "b.png" 15 15)].
Proof.
  assert (H1 : doc scheduled = Some (mkDoc [page0; []] false))
    by (vm_compute; reflexivity).
  assert (H2 : is_closed (mkDoc [page0; []] false) = false) by reflexivity.
  assert (H3 : 0 ≤ current_page_idx scheduled <
               Z.of_nat (length (pages (mkDoc [page0; []] false))))
    by (vm_compute; split; [discriminate | reflexivity]).
  split; [done|].
  rewrite (render_page_shows_page_and_overlays scheduled _ H1 H2 H3).
  vm_compute. reflexivity.
Defined.

Lemma apply_mods_keeps_other_pages_witness :
  apply_mods [mkMod 0 square "b.png"] (mkDoc [page0; []] false) =
    Ok (mkDoc [page0 ++ [mkInfo (Some (10, 10, 50, 50)%Q)]; []] false) ∧
  length (pages (mkDoc [page0 ++ [mkInfo (Some (10, 10, 50, 50)%Q)]; []]
                   false)) = 2%nat.
Proof.
  assert (H1 : apply_mods [mkMod 0 square "b.png"] (mkDoc [page0; []] false) =
               Ok (mkDoc [page0 ++ [mkInfo (Some (10, 10, 50, 50)%Q)]; []]
                     false)) by reflexivity.
  split; [done|].
  apply (apply_mods_keeps_other_pages _ _ _ H1).
Defined.

Lemma apply_mods_skips_missing_pages_witness :
  is_closed (mkDoc [page0; []] false) = false ∧
  apply_mods [mkMod 5 square "c.png"; mkMod 0 square "b.png"]
    (mkDoc [page0; []] false) =
  apply_mods [mkMod 0 square "b.png"] (mkDoc [page0; []] false).
Proof.
  split; [reflexivity|].
  by apply apply_mods_skips_missing_pages.
Defined.

Lemma replace_image_again_keeps_one_record_witness :
  (mode_var selected = ModeSelect ∧ selected_rect_pdf selected = Some square ∧
   rect_bool square = true ∧ "b.png" ≠ EmptyString ∧
   "c.png" ≠ EmptyString) ∧
  modifications (run (replace_image "c.png")
                   (run (replace_image "b.png") selected)) =
  add_or_replace (modifications selected)
    (mkMod (current_page_idx selected) square "c.png").
Proof.
  assert (H1 : mode_var selected = ModeSelect) by (vm_compute; reflexivity).
  assert (H2 : selected_rect_pdf selected = Some square)
    by (vm_compute; reflexivity).
  assert (H3 : rect_bool square = true) by reflexivity.
  assert (H4 : "b.png" ≠ EmptyString) by discriminate.
  assert (H5 : "c.png" ≠ EmptyString) by discriminate.
  split; [done|].
  apply (replace_image_again_keeps_one_record selected square
           "b.png" "c.png" H1 H2 H3 H4 H5).
Defined.

Lemma clear_page_edits_undoes_replace_image_witness :
  (mode_var selected = ModeSelect ∧ selected_rect_pdf selected = Some square ∧
   rect_bool square = true ∧ "b.png" ≠ EmptyString) ∧
  modifications (run clear_page_edits (run (replace_image "b.png") selected)) =
  modifications (run clear_page_edits selected).
Proof.
  assert (H1 : mode_var selected = ModeSelect) by (vm_compute; reflexivity).
  assert (H2 : selected_rect_pdf selected = Some square)
    by (vm_compute; reflexivity).
  assert (H3 : rect_bool square = true) by reflexivity.
  assert (H4 : "b.png" ≠ EmptyString) by discriminate.
  split; [done|].
  apply (clear_page_edits_undoes_replace_image selected square "b.png"
           H1 H2 H3 H4).
Defined.

Lemma navigation_round_trip_witness :
  (doc opened = Some (mkDoc [page0; []] false) ∧
   is_closed (mkDoc [page0; []] false) = false ∧
   pages (mkDoc [page0; []] false) ≠ [] ∧
   0 ≤ current_page_idx opened <
     Z.of_nat (length (pages (mkDoc [page0; []] false)))) ∧
  run prev_page opened = opened ∧
  current_page_idx (run prev_page (run next_page opened)) =
  current_page_idx opened.
Proof.
  assert (H1 : doc opened = Some (mkDoc [page0; []] false))
    by (vm_compute; reflexivity).
  assert (H2 : is_closed (mkDoc [page0; []] false) = false) by reflexivity.
  assert (H3 : pages (mkDoc [page0; []] false) ≠ []) by discriminate.
  assert (H4 : 0 ≤ current_page_idx opened <
               Z.of_nat (length (pages (mkDoc [page0; []] false))))
    by (vm_compute; split; [discriminate | reflexivity]).
  split; [done|].
  destruct (navigation_round_trip opened _ H1 H2 H3 H4)
    as (Hfirst & _ & Hround & _).
  split; [apply Hfirst | apply Hround]; vm_compute; reflexivity.
Defined.


Lemma click_inside_region_selects_witness :
  (doc opened = Some (mkDoc [page0; []] false) ∧
   is_closed (mkDoc [page0; []] false) = false ∧
   0 ≤ current_page_idx opened ∧
   pages (mkDoc [page0; []] false) !! Z.to_nat (current_page_idx opened) =
     Some page0 ∧
   mkInfo (Some (10, 10, 50, 50)%Q) ∈ page0 ∧
   rect_contains square (30 / zoom, 30 / zoom)%Q = true) ∧
  is_Some (selected_rect_pdf (run (on_canvas_click_select 30 30) opened)).
Proof.
  assert (H1 : doc opened = Some (mkDoc [page0; []] false))
    by (vm_compute; reflexivity).
  assert (H2 : is_closed (mkDoc [page0; []] false) = false) by reflexivity.
  assert (H3 : 0 ≤ current_page_idx opened) by (vm_compute; discriminate).
  assert (H4 : pages (mkDoc [page0; []] false)
                 !! Z.to_nat (current_page_idx opened) = Some page0)
    by (vm_compute; reflexivity).
  assert (H5 : mkInfo (Some (10, 10, 50, 50)%Q) ∈ page0) by (by left).
  assert (H6 : rect_contains square (30 / zoom, 30 / zoom)%Q = true)
    by (vm_compute; reflexivity).
  split; [done|].
  apply (click_inside_region_selects opened _ page0 30 30
           (mkInfo (Some (10, 10, 50, 50)%Q)) (10, 10, 50, 50)%Q
           H1 H2 H3 H4 H5 eq_refl H6).
Defined.

Lemma save_pdf_again_writes_nothing_witness :
  (doc_bool (doc scheduled) = Ok true ∧ modifications scheduled ≠ [] ∧
   "out.pdf" ≠ EmptyString ∧
   fst (persist_copy "out.pdf" scheduled) = Ok tt) ∧
  files (run (save_pdf "again.pdf") (run (save_pdf "out.pdf") scheduled)) =
  files (run (save_pdf "out.pdf") scheduled).
Proof.
  assert (H1 : doc_bool (doc scheduled) = Ok true)
    by (vm_compute; reflexivity).
  assert (H2 : modifications scheduled ≠ []) by (vm_compute; discriminate).
  assert (H3 : "out.pdf" ≠ EmptyString) by discriminate.
  assert (H4 : fst (persist_copy "out.pdf" scheduled) = Ok tt)
    by (vm_compute; reflexivity).
  split; [done|].
  destruct (save_pdf_again_writes_nothing scheduled "out.pdf" "again.pdf"
              H1 H2 H3 H4) as (_ & Hf & _).
  exact Hf.
Defined.

End SessionDemoFacts.

(** * More properties of the speech worker *)

Module SpeechFacts.
Import TTS TTSFacts Speech.
Section WithSpeechEngine.
Variable init_ok : nat → bool.
Variable start_ok : nat → bool.

Lemma held_insert (ws : list WorkerPc) (w : nat) (pc pc' : WorkerPc) :
  ws !! w = Some pc →
  ∃ h1 h2,
    omap held_text ws = h1 ++ option_list (held_text pc) ++ h2 ∧
    omap held_text (<[w:=pc']> ws) =
      h1 ++ option_list (held_text pc') ++ h2.
Proof.
  intros Hw. exists (omap held_text (take w ws)),
    (omap held_text (drop (S w) ws)).
  assert (Hlt : (w < length ws)%nat) by by eapply lookup_lt_Some.
  assert (Hcons : ∀ x l, omap held_text (x :: l) =
                    option_list (held_text x) ++ omap held_text l).
  { intros x l. by destruct x. }
  split.
  - rewrite <- (take_drop_middle ws w pc Hw) at 1.
    by rewrite omap_app, Hcons.
  - rewrite insert_take_drop by done. by rewrite omap_app, Hcons.
Qed.

(** One step adds to the texts accounted for at most the text it queues. *)
Lemma step_accounted (l : Label) (s : Sys) :
  accounted (step init_ok start_ok l s) ⊆+ accounted s ++ puts_of [l].
Proof.
  unfold accounted. destruct l as [| txt | | w]; simpl.
  - unfold call_stop_speaking. destruct (ui_pc s), (tts_ready s); simpl;
      solve_submseteq.
  - unfold enqueue. destruct (ui_pc s); simpl;
      rewrite ?omap_app; simpl; solve_submseteq.
  - unfold ui_step. destruct (ui_pc s); simpl; try solve_submseteq.
    + destruct (tts_queue s) as [|o q] eqn:Eq; simpl; rewrite ?Eq;
        solve_submseteq.
    + destruct (tts_queue s) as [|[t|] q] eqn:Eq; simpl; rewrite ?Eq; simpl;
        solve_submseteq.
    + destruct (start_ok _); simpl; rewrite omap_app; simpl;
        solve_submseteq.
  - unfold worker_step, cleanup.
    destruct (workers s !! w) as [pc|] eqn:Ew; [|solve_submseteq].
    destruct pc as [| | e | e | e t | eo]; try solve_submseteq.
    + destruct (init_ok w); simpl.
      * destruct (held_insert _ w _ (WLoop (engines s)) Ew)
          as (h1 & h2 & -> & ->). simpl. solve_submseteq.
      * destruct (held_insert _ w _ (WExited None) Ew)
          as (h1 & h2 & -> & ->). simpl. solve_submseteq.
    + destruct (tts_stop_event s); simpl.
      * destruct (held_insert _ w _ (WExited (Some e)) Ew)
          as (h1 & h2 & -> & ->). simpl. solve_submseteq.
      * destruct (held_insert _ w _ (WGet e) Ew)
          as (h1 & h2 & -> & ->). simpl. solve_submseteq.
    + destruct (tts_queue s) as [|[t|] q] eqn:Eq; simpl; rewrite ?Eq; simpl.
      * destruct (held_insert _ w _ (WLoop e) Ew)
          as (h1 & h2 & -> & ->). simpl. solve_submseteq.
      * destruct (held_insert _ w _ (WSay e t) Ew)
          as (h1 & h2 & -> & ->). simpl. solve_submseteq.
      * destruct (held_insert _ w _ (WExited (Some e)) Ew)
          as (h1 & h2 & -> & ->). simpl. solve_submseteq.
    + simpl. destruct (held_insert _ w _ (WLoop e) Ew)
        as (h1 & h2 & -> & ->). simpl. solve_submseteq.
Qed.

Lemma run_accounted (sched : list Label) (s : Sys) :
  accounted (run_sched init_ok start_ok sched s) ⊆+
  accounted s ++ puts_of sched.
Proof.
  revert s. induction sched as [|l sched IH]; intros s.
  - simpl. by rewrite app_nil_r.
  - rewrite run_sched_cons. etrans; [apply IH|].
    assert (Hp : puts_of (l :: sched) = puts_of [l] ++ puts_of sched)
      by (by destruct l).
    rewrite Hp, app_assoc. apply submseteq_skips_r, step_accounted.
Qed.

(** X15. From the start of the application and under every schedule of the
    user-interface thread and the workers, what has been handed to the
    speech engines is a sub-multiset of the texts that were queued: no
    text is spoken that was not queued, and none more often than it was
    queued, however many workers are alive. *)
Theorem spoken_only_what_was_queued (sched : list Label) :
  spoken (run_sched init_ok start_ok sched (app_init start_ok)) ⊆+
  puts_of sched.
Proof.
  etrans; [|etrans; [apply (run_accounted sched (app_init start_ok))|]].
  - unfold accounted. solve_submseteq.
  - unfold accounted, app_init. by destruct (start_ok 0).
Qed.

End WithSpeechEngine.
End SpeechFacts.
